(** * Data Processing Service (service2.py): a shallow embedding

    The service keeps processed user records in a module-level Python
    dictionary, derives a handful of fields from each posted user, and
    answers aggregate queries by asking a peer service for every stored
    user's age.  This development models

    - Python's insertion-ordered [dict] ([PyDict]),
    - the JSON values and HTTP replies the peer can send ([json], [reply]),
    - the handlers [process_user], [get_processed_user],
      [delete_processed_user], [get_analytics] and [batch_process_users],
      written as state-passing functions that also log their outbound calls,

    and then states and proves the properties of those handlers.

    Modelling choices:
    - Python integers are [Z]; floats are the rationals they stand for
      ([Q]), so rounding errors of float arithmetic are not modelled;
    - strings are [string], one [ascii] per character;
    - an exception is a value of [exn], a block that may raise has a value
      in [outcome], and [try]/[except] is a [match] on it;
    - the peer service is a function from the calls made so far and the
      current call to a [reply], which covers peers that change their
      answers over time. *)

From Stdlib Require Import ZArith QArith Lia Ascii String.
From stdpp Require Import base option list strings pretty.

Set Warnings "-register-all".

Local Open Scope Z_scope.

(** ** Python's dict: an insertion-ordered association list *)

Module PyDict.
Section dict.
Context {K V : Type} `{EqDecision K}.

Definition t := list (K * V).

Definition keys (d : t) : list K := d.*1.
Definition values (d : t) : list V := d.*2.
Definition len (d : t) : nat := length d.

(** [d.get(k)] / [d[k]] *)
Fixpoint get (k : K) (d : t) : option V :=
  match d with
  | [] => None
  | (k', v) :: d' => if decide (k = k') then Some v else get k d'
  end.

(** [k in d] *)
Definition contains (k : K) (d : t) : bool :=
  match get k d with Some _ => true | None => false end.

(** [d[k] = v]: an existing key keeps its position, a new key goes last. *)
Fixpoint set (k : K) (v : V) (d : t) : t :=
  match d with
  | [] => [(k, v)]
  | (k', v') :: d' =>
    if decide (k = k') then (k, v) :: d' else (k', v') :: set k v d'
  end.

(** [d.pop(k)]: [None] stands for [KeyError]. *)
Fixpoint pop (k : K) (d : t) : option (V * t) :=
  match d with
  | [] => None
  | (k', v) :: d' =>
    if decide (k = k') then Some (v, d')
    else match pop k d' with
         | Some (w, d'') => Some (w, (k', v) :: d'')
         | None => None
         end
  end.

(** A list represents a dict when no key occurs twice. *)
Definition wf (d : t) : Prop := NoDup (keys d).

End dict.
Arguments t : clear implicits.
End PyDict.

(** ** JSON values, exceptions and the peer service *)

(** A decoded JSON document, as [response.json()] returns it.  Numbers are
    kept exact: an integer literal is a Python [int], any other number a
    float, modelled by the rational it denotes. *)
Inductive json :=
| JNull
| JBool (b : bool)
| JInt (n : Z)
| JFloat (q : Q)
| JStr (s : string)
| JArr (items : list json)
| JObj (members : PyDict.t string json).

(** The exceptions that occur in the handlers. *)
Inductive exn :=
| TimeoutException                       (* httpx: no answer within SERVICE1_TIMEOUT *)
| ConnectError                           (* httpx: peer unreachable *)
| JSONDecodeError                        (* response.json() on a body that is not JSON *)
| KeyError
| TypeError
| HTTPException (status_code : Z) (detail : string).

(** What running a piece of Python yields: a value or a raised exception. *)
Inductive outcome (A : Type) :=
| Return (a : A)
| Raise (e : exn).
Arguments Return {A} a.
Arguments Raise {A} e.

(** Sequencing: a raised exception skips the rest ([x ← m; k]). *)
#[global] Instance outcome_bind : MBind outcome := λ A B f m,
  match m with
  | Return a => f a
  | Raise e => Raise e
  end.

(** The status line the HTTP client of this service sees: an uncaught
    exception other than [HTTPException] is answered with 500. *)
Definition status_of {A} (o : outcome A) : Z :=
  match o with
  | Return _ => 200
  | Raise (HTTPException status_code _) => status_code
  | Raise _ => 500
  end.

(** Outbound requests to the peer, [SERVICE1_URL] being the common prefix. *)
Inductive request :=
| GetUser (user_id : Z)                  (* GET  {SERVICE1_URL}/users/{user_id} *)
| GetUsers                               (* GET  {SERVICE1_URL}/users *)
| PostProcessUser (payload : json).      (* POST {SERVICE1_URL}/process-user *)

(** What one call through [httpx.AsyncClient] comes back with. *)
Inductive reply :=
| Fails (e : exn)
| Responds (status_code : Z) (body : option json).  (* [None]: the body is not JSON *)

(** The peer is any function of the calls made so far and the current call;
    every sequence of answers is the behaviour of some peer. *)
Definition peer := list request → request → reply.

Definition call (p : peer) (log : list request) (req : request)
  : reply * list request :=
  (p log req, log ++ [req]).

(** ** Python built-ins the source relies on *)

(** [str.upper], [round(x, 2)] on floats and [str(e)] of an exception are
    defined by the Python runtime and its libraries, not by the service;
    the handlers are parametrised over them. *)
Class Builtins := {
  str_upper : string → string;
  round2 : Q → Q;
  str_exn : exn → string;
}.

(** [c in s] for a one-character [c] *)
Fixpoint str_contains (c : ascii) (s : string) : bool :=
  match s with
  | EmptyString => false
  | String c' s' => if decide (c' = c) then true else str_contains c s'
  end.

(** [s.split(sep)] for a one-character [sep] *)
Fixpoint str_split (sep : ascii) (s : string) : list string :=
  match s with
  | EmptyString => [EmptyString]
  | String c s' =>
      if decide (c = sep) then EmptyString :: str_split sep s'
      else match str_split sep s' with
           | w :: ws => String c w :: ws
           | [] => [String c EmptyString]
           end
  end.

(** [l[-1]] *)
Definition last_item (l : list string) : string := default EmptyString (last l).

(** [v[key]] for a string [key] *)
Definition subscript (v : json) (key : string) : outcome json :=
  match v with
  | JObj members =>
      match PyDict.get key members with
      | Some x => Return x
      | None => Raise KeyError
      end
  | _ => Raise TypeError
  end.

(** [for x in v] *)
Definition py_iter (v : json) : outcome (list json) :=
  match v with
  | JArr items => Return items
  | JObj members => Return (JStr <$> PyDict.keys members)
  | JStr s => Return ((λ c, JStr (String c EmptyString)) <$> list_ascii_of_string s)
  | _ => Raise TypeError
  end.

(** [acc + v] for a numeric [acc] *)
Definition py_add (acc : Q) (v : json) : outcome Q :=
  match v with
  | JInt n => Return (acc + inject_Z n)%Q
  | JFloat q => Return (acc + q)%Q
  | JBool b => Return (acc + (if b then 1 else 0))%Q
  | _ => Raise TypeError
  end.

Fixpoint py_sum_from (acc : Q) (l : list json) : outcome Q :=
  match l with
  | [] => Return acc
  | v :: l' => acc' ← py_add acc v; py_sum_from acc' l'
  end.

(** [sum(l)] *)
Definition py_sum (l : list json) : outcome Q := py_sum_from 0%Q l.

(** ** Data models *)

Module User.
(** [class User(BaseModel)]; [id] is [None] when the caller omits it. *)
Record t := make { id : option Z; name : string; email : string; age : Z }.
End User.

Module ProcessedData.
(** The [processed_data] dictionary built by [process_user]. *)
Record t := make {
  name_length : Z;
  email_domain : string;
  age_category : string;
  name_uppercase : string;
  email_uppercase : string;
  age_squared : Z;
  is_adult : bool;
}.
End ProcessedData.

Module Analytics.
(** The per-record [analytics] dictionary. *)
Record t := make {
  processing_time_ms : Z;
  data_quality_score : Q;
  confidence_level : Q;
}.
End Analytics.

Module ProcessedUserData.
Record t := make {
  user_id : Z;
  processed_data : ProcessedData.t;
  processing_timestamp : string;
  analytics : Analytics.t;
}.
End ProcessedUserData.

Module AnalyticsSummary.
Record t := make {
  total_users : Z;
  average_age : Q;
  age_distribution : PyDict.t string Z;
  processing_stats : PyDict.t string json;
}.
End AnalyticsSummary.

(** The JSON bodies the handlers answer with. *)
Inductive response :=
| Message (message : string)
| UserMessage (message : string) (user_id : Z)
| Stored (r : ProcessedUserData.t)
| Summary (s : AnalyticsSummary.t)
| BatchReport (message : string) (total_users processed_count : Z).

(** The module-level state: [processed_users_db] and [analytics_cache]. *)
Record state := State {
  processed_users_db : PyDict.t Z ProcessedUserData.t;
  analytics_cache : PyDict.t string json;
}.

Definition initial_state : state :=
  {| processed_users_db := []; analytics_cache := [] |}.

(** ** The handlers *)

Section handlers.
Context `{Builtins}.

(** The dictionary literal of [process_user] (lines 55-63). *)
Definition derive_processed_data (user : User.t) : ProcessedData.t :=
  {| ProcessedData.name_length := Z.of_nat (String.length (User.name user));
     ProcessedData.email_domain :=
       if str_contains "@" (User.email user)
       then last_item (str_split "@" (User.email user))
       else "unknown";
     ProcessedData.age_category :=
       if decide (User.age user < 30) then "young"
       else if decide (User.age user < 50) then "middle"
       else "senior";
     ProcessedData.name_uppercase := str_upper (User.name user);
     ProcessedData.email_uppercase := str_upper (User.email user);
     ProcessedData.age_squared := User.age user ^ 2;
     ProcessedData.is_adult := bool_decide (User.age user >= 18) |}.

Definition fixed_analytics : Analytics.t :=
  {| Analytics.processing_time_ms := 150;
     Analytics.data_quality_score := 95 # 100;
     Analytics.confidence_level := 88 # 100 |}.

(** [POST /process-user].  [now] is what [datetime.now().isoformat()]
    reads from the clock; the [print] to standard output is left out. *)
Definition process_user (now : string) (user : User.t) (st : state)
  : outcome response * state :=
  match User.id user with
  | None => (Raise (HTTPException 400 "User ID is required"), st)
  | Some uid =>
      if decide (uid = 0)
      then (Raise (HTTPException 400 "User ID is required"), st)
      else
        let processed_data := derive_processed_data user in
        let record :=
          {| ProcessedUserData.user_id := uid;
             ProcessedUserData.processed_data := processed_data;
             ProcessedUserData.processing_timestamp := now;
             ProcessedUserData.analytics := fixed_analytics |} in
        (Return (UserMessage "User processed successfully" uid),
         {| processed_users_db := PyDict.set uid record (processed_users_db st);
            analytics_cache := [] |})
  end.

(** [GET /processed-users/{user_id}] *)
Definition get_processed_user (user_id : Z) (st : state) : outcome response :=
  match PyDict.get user_id (processed_users_db st) with
  | None => Raise (HTTPException 404 "Processed user data not found")
  | Some r => Return (Stored r)
  end.

(** [DELETE /processed-users/{user_id}] *)
Definition delete_processed_user (user_id : Z) (st : state)
  : outcome response * state :=
  if negb (PyDict.contains user_id (processed_users_db st))
  then (Raise (HTTPException 404 "Processed user data not found"), st)
  else
    match PyDict.pop user_id (processed_users_db st) with
    | None => (Raise KeyError, st)
    | Some (deleted_data, db) =>
        (Return (Message ("Processed data for user " +:+ pretty user_id
                          +:+ " deleted successfully")),
         {| processed_users_db := db; analytics_cache := [] |})
    end.

(** The fallback of [get_analytics] (lines 136-141). *)
Definition estimate (age_category : string) : Z :=
  if decide (age_category = "young") then 25
  else if decide (age_category = "middle") then 40
  else 60.

(** The body of the [try] block of [get_analytics] once the call has come
    back: [Return (Some v)] appends [v], [Return None] appends nothing. *)
Definition fetch_age (r : reply) : outcome (option json) :=
  match r with
  | Fails e => Raise e
  | Responds status_code body =>
      if decide (status_code = 200) then
        match body with
        | None => Raise JSONDecodeError
        | Some user => v ← subscript user "age"; Return (Some v)
        end
      else Return None
  end.

(** One round of the [for] loop of [get_analytics]. *)
Definition analytics_step (p : peer)
    (acc : list json * PyDict.t string Z * list request)
    (user_data : ProcessedUserData.t)
  : list json * PyDict.t string Z * list request :=
  let '(ages, age_distribution, log) := acc in
  let age_category :=   (* the key is always there: the [.get] default is never used *)
    ProcessedData.age_category (ProcessedUserData.processed_data user_data) in
  let age_distribution :=
    PyDict.set age_category
      (default 0 (PyDict.get age_category age_distribution) + 1)
      age_distribution in
  let '(r, log) := call p log (GetUser (ProcessedUserData.user_id user_data)) in
  let ages :=
    match fetch_age r with
    | Return (Some v) => ages ++ [v]
    | Return None => ages
    | Raise _ => ages ++ [JInt (estimate age_category)]
    end in
  (ages, age_distribution, log).

Definition analytics_loop (p : peer) (records : list ProcessedUserData.t)
    (acc : list json * PyDict.t string Z * list request) :=
  fold_left (analytics_step p) records acc.

(** [sum(ages) / len(ages) if ages else 0.0] *)
Definition mean (ages : list json) : outcome Q :=
  match ages with
  | [] => Return 0%Q
  | _ => total ← py_sum ages; Return (total / inject_Z (Z.of_nat (length ages)))%Q
  end.

(** [GET /analytics]; the second component lists the calls made to the
    peer, in order. *)
Definition get_analytics (p : peer) (st : state)
  : outcome response * list request :=
  match processed_users_db st with
  | [] =>
      (Return (Summary {| AnalyticsSummary.total_users := 0;
                          AnalyticsSummary.average_age := 0%Q;
                          AnalyticsSummary.age_distribution := [];
                          AnalyticsSummary.processing_stats := [] |}), [])
  | _ =>
      let total_users := Z.of_nat (PyDict.len (processed_users_db st)) in
      let '(ages, age_distribution, log) :=
        analytics_loop p (PyDict.values (processed_users_db st))
          ([], [("young", 0); ("middle", 0); ("senior", 0)], []) in
      let processing_stats :=
        [("total_processed", JInt total_users);
         ("avg_processing_time_ms", JInt 150);
         ("avg_confidence_level", JFloat (88 # 100));
         ("avg_data_quality_score", JFloat (95 # 100))] in
      (average_age ← mean ages;
       Return (Summary {| AnalyticsSummary.total_users := total_users;
                          AnalyticsSummary.average_age := round2 average_age;
                          AnalyticsSummary.age_distribution := age_distribution;
                          AnalyticsSummary.processing_stats := processing_stats |}),
       log)
  end.

(** The [for user in users] loop of [batch_process_users]. *)
Fixpoint batch_loop (p : peer) (users : list json) (processed_count : Z)
    (log : list request) : outcome Z * list request :=
  match users with
  | [] => (Return processed_count, log)
  | user :: rest =>
      let '(r, log) := call p log (PostProcessUser user) in
      match r with
      | Fails e => (Raise e, log)
      | Responds status_code _ =>
          batch_loop p rest
            (if decide (status_code = 200) then processed_count + 1
             else processed_count)
            log
      end
  end.

(** The [try] block of [batch_process_users]. *)
Definition batch_body (p : peer) : outcome response * list request :=
  let '(r, log) := call p [] GetUsers in
  match r with
  | Fails e => (Raise e, log)
  | Responds status_code body =>
      if decide (status_code = 200) then
        match body with
        | None => (Raise JSONDecodeError, log)
        | Some users =>
            match py_iter users with
            | Raise e => (Raise e, log)
            | Return items =>
                let '(res, log) := batch_loop p items 0 log in
                (processed_count ← res;
                 Return (BatchReport "Batch processing completed"
                           (Z.of_nat (length items)) processed_count),
                 log)
            end
        end
      else (Raise (HTTPException 500 "Failed to get users from service1"), log)
  end.

(** [POST /batch-process]: whatever the [try] block raises is turned into
    a 500. *)
Definition batch_process_users (p : peer) : outcome response * list request :=
  let '(res, log) := batch_body p in
  match res with
  | Return x => (Return x, log)
  | Raise e =>
      (Raise (HTTPException 500 ("Batch processing failed: " +:+ str_exn e)), log)
  end.
End handlers.


(** ** A concrete runtime

    An instance of [Builtins] to run the handlers on examples: upper-casing
    of the ASCII letters, rounding of a rational to hundredths (ties to the
    even neighbour) and the bare name of an exception. *)

Definition ascii_upper (c : ascii) : ascii :=
  let n := nat_of_ascii c in
  if decide (97 ≤ n ≤ 122)%nat then ascii_of_nat (n - 32) else c.

Fixpoint ascii_str_upper (s : string) : string :=
  match s with
  | EmptyString => EmptyString
  | String c s' => String (ascii_upper c) (ascii_str_upper s')
  end.

Definition round_hundredths (q : Q) : Q :=
  let x := 100 * Qnum q in
  let d := Z.pos (Qden q) in
  let k := x / d in
  let r := x mod d in
  let k' :=
    if decide (2 * r < d) then k
    else if decide (d < 2 * r) then k + 1
    else if Z.even k then k else k + 1 in
  Qred (k' # 100).

Definition exn_name (e : exn) : string :=
  match e with
  | TimeoutException => "TimeoutException"
  | ConnectError => "ConnectError"
  | JSONDecodeError => "JSONDecodeError"
  | KeyError => "KeyError"
  | TypeError => "TypeError"
  | HTTPException status_code detail => pretty status_code +:+ ": " +:+ detail
  end.

Definition ascii_builtins : Builtins :=
  {| str_upper := ascii_str_upper; round2 := round_hundredths; str_exn := exn_name |}.

(** ** Reachable states and the store invariant *)

Definition valid_category (c : string) : Prop :=
  c = "young" ∨ c = "middle" ∨ c = "senior".

Definition category_of (r : ProcessedUserData.t) : string :=
  ProcessedData.age_category (ProcessedUserData.processed_data r).

(** What holds of every store the handlers can produce: keys are distinct,
    each record sits under its own identifier, and each category is one of
    the three that [process_user] assigns. *)
Record store_inv (st : state) : Prop := {
  inv_wf : PyDict.wf (processed_users_db st);
  inv_keys : Forall (λ kv, ProcessedUserData.user_id kv.2 = kv.1) (processed_users_db st);
  inv_categories : Forall (λ kv, valid_category (category_of kv.2))
                     (processed_users_db st);
}.

Section reachable.
Context `{Builtins}.

(** The states of a running service: the two mutating handlers applied any
    number of times to the initial, empty state. *)
Inductive reachable : state → Prop :=
| reach_init : reachable initial_state
| reach_process now user st :
    reachable st → reachable (process_user now user st).2
| reach_delete user_id st :
    reachable st → reachable (delete_processed_user user_id st).2.

End reachable.

(** ** Vocabulary for the statements *)

(** The histogram with its three buckets. *)
Definition tally (y m o : Z) : PyDict.t string Z :=
  [("young", y); ("middle", m); ("senior", o)].

(** A peer that, when it answers at all, answers 200. *)
Definition never_other_status (p : peer) : Prop :=
  ∀ log req status_code body, p log req = Responds status_code body → status_code = 200.

(** A peer no call to which comes back: each one raises. *)
Definition unreachable (p : peer) : Prop :=
  ∀ log req, ∃ e, p log req = Fails e.

(** The estimates of [records] added to [acc], left to right. *)
Definition add_estimates (acc : Q) (records : list ProcessedUserData.t) : Q :=
  fold_left (λ acc r, (acc + inject_Z (estimate (category_of r)))%Q) records acc.

(** The peer's answers to the re-submission of [items], one after the
    other, when [log] lists the calls made before. *)
Fixpoint submissions (p : peer) (items : list json) (log : list request)
  : list reply :=
  match items with
  | [] => []
  | user :: rest =>
      p log (PostProcessUser user)
      :: submissions p rest (log ++ [PostProcessUser user])
  end.

Definition raised (r : reply) : bool :=
  match r with Fails _ => true | Responds _ _ => false end.

Definition answered_200 (r : reply) : bool :=
  match r with
  | Fails _ => false
  | Responds status_code _ => bool_decide (status_code = 200)
  end.

Fixpoint count_200 (rs : list reply) : Z :=
  match rs with
  | [] => 0
  | r :: rs' => (if answered_200 r then 1 else 0) + count_200 rs'
  end.

(** ** Sample data *)

Definition ann : User.t := User.make (Some 1) "Ann" "ann@example.com" 22.
Definition bob : User.t := User.make (Some 2) "Bob" "bob@example.org" 41.

Definition ann_json : json :=
  JObj [("id", JInt 1); ("name", JStr "Ann"); ("email", JStr "ann@example.com");
        ("age", JInt 22)].
Definition bob_json : json :=
  JObj [("id", JInt 2); ("name", JStr "Bob"); ("email", JStr "bob@example.org");
        ("age", JInt 41)].

Definition not_found : reply :=
  Responds 404 (Some (JObj [("detail", JStr "User not found")])).

(** The peer is down: every call raises. *)
Definition peer_down : peer := λ _ _, Fails ConnectError.

(** The peer has no users: every lookup is answered 404. *)
Definition peer_not_found : peer := λ _ _, not_found.

(** The peer knows Ann only. *)
Definition peer_knows_ann : peer := λ _ req,
  match req with
  | GetUser 1 => Responds 200 (Some ann_json)
  | _ => not_found
  end.

(** The peer answers 200 with the age written as text. *)
Definition peer_text_age : peer := λ _ _,
  Responds 200 (Some (JObj [("id", JInt 1); ("name", JStr "Ann"); ("age", JStr "22")])).

(** The peer lists Ann and Bob, times out on Ann's re-submission and would
    accept Bob's. *)
Definition peer_times_out_on_ann : peer := λ _ req,
  match req with
  | GetUsers => Responds 200 (Some (JArr [ann_json; bob_json]))
  | PostProcessUser (JObj (("id", JInt 1) :: _)) => Fails TimeoutException
  | PostProcessUser _ => Responds 200 (Some (JObj [("message", JStr "ok")]))
  | GetUser _ => not_found
  end.

(** The peer lists Ann and Bob, rejects Ann's re-submission with 422 and
    accepts Bob's. *)
Definition peer_rejects_ann : peer := λ _ req,
  match req with
  | GetUsers => Responds 200 (Some (JArr [ann_json; bob_json]))
  | PostProcessUser (JObj (("id", JInt 1) :: _)) => Responds 422 None
  | PostProcessUser _ => Responds 200 (Some (JObj [("message", JStr "ok")]))
  | GetUser _ => not_found
  end.

Section samples.
Context `{Builtins}.

Definition store_ann : state :=
  (process_user "2024-05-01T10:00:00" ann initial_state).2.

Definition store_ann_bob : state :=
  (process_user "2024-05-01T10:00:05" bob store_ann).2.

End samples.

(** ** The remaining handlers *)

(** [GET /] and [GET /health]: constant bodies. *)
Definition root : PyDict.t string string :=
  [("message", "Data Processing Service is running"); ("service", "service2")].

Definition health_check : PyDict.t string string :=
  [("status", "healthy"); ("service", "service2")].

(** [GET /processed-users]: [list(processed_users_db.values())] *)
Definition get_all_processed_users (st : state) : list ProcessedUserData.t :=
  PyDict.values (processed_users_db st).

(** The two calls of [cross_service_test]. *)
Inductive probe :=
| ProbeHealth                            (* GET {SERVICE1_URL}/health *)
| ProbeUsers.                            (* GET {SERVICE1_URL}/users *)

(** The peer as [cross_service_test] sees it. *)
Definition probed_peer := list probe → probe → reply.

(** [len(v)] *)
Definition py_len (v : json) : outcome Z :=
  match v with
  | JArr items => Return (Z.of_nat (length items))
  | JObj members => Return (Z.of_nat (PyDict.len members))
  | JStr s => Return (Z.of_nat (String.length s))
  | _ => Raise TypeError
  end.

(** [client.get(...)] followed by [response.json()]; the status code is
    not looked at. *)
Definition decoded (r : reply) : outcome json :=
  match r with
  | Fails e => Raise e
  | Responds _ None => Raise JSONDecodeError
  | Responds _ (Some v) => Return v
  end.

Module CrossServiceReport.
(** The body [cross_service_test] answers with. *)
Record t := make {
  cross_service_test : PyDict.t string json;
  service2_status : string;
  processed_users_count : Z;
}.
End CrossServiceReport.

Section diagnostics.
Context `{Builtins}.

(** The [except Exception as e] entries. *)
Definition error_entry (e : exn) : json :=
  JObj [("status", JStr "error"); ("error", JStr (str_exn e))].

(** The first [try]/[except] of [cross_service_test]. *)
Definition health_entry (r : reply) : json :=
  match decoded r with
  | Return v => JObj [("status", JStr "success"); ("response", v)]
  | Raise e => error_entry e
  end.

(** The second [try]/[except] of [cross_service_test]. *)
Definition users_entry (r : reply) : json :=
  match (v ← decoded r; py_len v) with
  | Return n => JObj [("status", JStr "success"); ("count", JInt n)]
  | Raise e => error_entry e
  end.

(** [GET /cross-service-test]; the second component lists the calls made
    to the peer, in order. *)
Definition cross_service_test (p : probed_peer) (st : state)
  : CrossServiceReport.t * list probe :=
  let results : PyDict.t string json := [] in
  let r := p [] ProbeHealth in
  let log := [ProbeHealth] in
  let results := PyDict.set "service1_health" (health_entry r) results in
  let r := p log ProbeUsers in
  let log := log ++ [ProbeUsers] in
  let results := PyDict.set "service1_users" (users_entry r) results in
  ({| CrossServiceReport.cross_service_test := results;
      CrossServiceReport.service2_status := "healthy";
      CrossServiceReport.processed_users_count :=
        Z.of_nat (PyDict.len (processed_users_db st)) |},
   log).

End diagnostics.

(** The record [process_user] stores for [user] under [uid] at time [now]. *)
Definition record_of `{Builtins} (now : string) (uid : Z) (user : User.t)
  : ProcessedUserData.t :=
  {| ProcessedUserData.user_id := uid;
     ProcessedUserData.processed_data := derive_processed_data user;
     ProcessedUserData.processing_timestamp := now;
     ProcessedUserData.analytics := fixed_analytics |}.

(** The identifier [process_user] accepts: present and not zero. *)
Definition accepted_id (user : User.t) : option Z :=
  match User.id user with
  | Some uid => if decide (uid = 0) then None else Some uid
  | None => None
  end.



(** A peer that answers every call, and never with 200. *)
Definition always_other_status (p : peer) : Prop :=
  ∀ log req, ∃ status_code body,
    p log req = Responds status_code body ∧ status_code ≠ 200.

(** Ann again, with a new address and a year older. *)
Definition ann_moved : User.t := User.make (Some 1) "Ann" "ann@new.example.com" 23.

(** A user posted with the identifier zero. *)
Definition carl : User.t := User.make (Some 0) "Carl" "carl.example.com" 17.

(** The peer wraps its user list in an object and accepts every
    re-submission. *)
Definition peer_sends_object : peer := λ _ req,
  match req with
  | GetUsers => Responds 200 (Some (JObj [("users", JArr [ann_json; bob_json])]))
  | _ => Responds 200 (Some (JObj [("message", JStr "ok")]))
  end.

(** The peer answers both probes with 503 and an error document. *)
Definition probed_peer_degraded : probed_peer := λ _ _,
  Responds 503 (Some (JObj [("detail", JStr "Service Unavailable")])).

(** The peer is healthy and lists Ann and Bob. *)
Definition probed_peer_healthy : probed_peer := λ _ req,
  match req with
  | ProbeHealth => Responds 200 (Some (JObj [("status", JStr "healthy")]))
  | ProbeUsers => Responds 200 (Some (JArr [ann_json; bob_json]))
  end.

(** * Properties *)

(** ** Facts about dictionaries *)

Module PyDictFacts.
Import PyDict.
Section facts.
Context {K V : Type} `{EqDecision K}.
Implicit Types (k : K) (v : V) (d : PyDict.t K V).

Lemma contains_get k d : contains k d = true ↔ is_Some (get k d).
Proof.
  unfold contains. destruct (get k d); split; intros H; eauto.
  - discriminate.
  - by destruct H.
Qed.

Lemma contains_false k d : contains k d = false ↔ get k d = None.
Proof. unfold contains. by destruct (get k d). Qed.

Lemma get_None_keys k d : get k d = None ↔ k ∉ keys d.
Proof.
  unfold keys. induction d as [|[k' v] d IH]; simpl.
  - split; [intros _; apply not_elem_of_nil | done].
  - rewrite not_elem_of_cons. destruct (decide (k = k')) as [->|Hne].
    + split; [done | by intros [? _]].
    + rewrite IH. split; [done | by intros [_ ?]].
Qed.

Lemma get_set_eq k v d : get k (set k v d) = Some v.
Proof.
  induction d as [|[k' v'] d IH]; simpl.
  - by rewrite decide_True.
  - destruct (decide (k = k')) as [->|Hne]; simpl.
    + by rewrite decide_True.
    + by rewrite decide_False.
Qed.

Lemma get_set_ne k k' v d : k ≠ k' → get k' (set k v d) = get k' d.
Proof.
  intros Hne. induction d as [|[k0 v0] d IH]; simpl.
  - by rewrite decide_False.
  - destruct (decide (k = k0)) as [->|Hne0]; simpl.
    + by rewrite !decide_False.
    + destruct (decide (k' = k0)); done.
Qed.

Lemma keys_set_present k v d : k ∈ keys d → keys (set k v d) = keys d.
Proof.
  unfold keys. induction d as [|[k0 v0] d IH]; simpl.
  - intros H. by apply elem_of_nil in H.
  - intros H. destruct (decide (k = k0)) as [->|Hne]; simpl; [done|].
    f_equal. apply IH. apply elem_of_cons in H. by destruct H.
Qed.

Lemma keys_set_fresh k v d : k ∉ keys d → keys (set k v d) = keys d ++ [k].
Proof.
  unfold keys. induction d as [|[k0 v0] d IH]; simpl; [done|].
  rewrite not_elem_of_cons. intros [Hne Hnin].
  rewrite decide_False by done. simpl. f_equal. by apply IH.
Qed.

Lemma wf_nil : wf ([] : PyDict.t K V).
Proof. apply NoDup_nil_2. Qed.

Lemma wf_set k v d : wf d → wf (set k v d).
Proof.
  unfold wf. intros Hd. destruct (decide (k ∈ keys d)) as [Hin|Hnin].
  - by rewrite keys_set_present.
  - rewrite keys_set_fresh by done. apply NoDup_app. split_and!; [done| |].
    + intros x Hx Hx'. apply list_elem_of_singleton in Hx'. by subst.
    + apply NoDup_singleton.
Qed.

Lemma pop_None k d : pop k d = None ↔ get k d = None.
Proof.
  induction d as [|[k' v] d IH]; simpl; [done|].
  destruct (decide (k = k')); [done|].
  destruct (pop k d) as [[w d'']|]; [|done].
  split; [done|]. intros H. apply IH in H. done.
Qed.

(** [pop] hands back exactly the value [get] finds. *)
Lemma pop_Some_get k d v d' : pop k d = Some (v, d') → get k d = Some v.
Proof.
  revert d'. induction d as [|[k' v'] d IH]; simpl; intros d'; [done|].
  destruct (decide (k = k')); [congruence|].
  destruct (pop k d) as [[w d'']|] eqn:E; [|done].
  intros [= -> <-]. eauto.
Qed.

Lemma get_Some_pop k d v : get k d = Some v → ∃ d', pop k d = Some (v, d').
Proof.
  induction d as [|[k' v'] d IH]; simpl; [done|].
  destruct (decide (k = k')); [intros [= ->]; eauto|].
  intros H. destruct (IH H) as [d' ->]. eauto.
Qed.

Lemma keys_pop k d v d' :
  pop k d = Some (v, d') → ∃ l1 l2, keys d = l1 ++ k :: l2 ∧ keys d' = l1 ++ l2.
Proof.
  unfold keys. revert d'. induction d as [|[k' v'] d IH]; simpl; intros d'; [done|].
  destruct (decide (k = k')) as [->|Hne].
  - intros [= -> ->]. by exists [], (d'.*1).
  - destruct (pop k d) as [[w d'']|] eqn:E; [|done].
    intros [= -> <-]. destruct (IH _ eq_refl) as (l1 & l2 & E1 & E2).
    exists (k' :: l1), l2.
    split; [exact (f_equal (cons k') E1) | exact (f_equal (cons k') E2)].
Qed.

Lemma wf_pop k d v d' : wf d → pop k d = Some (v, d') → wf d'.
Proof.
  unfold wf. intros Hd Hp. destruct (keys_pop _ _ _ _ Hp) as (l1 & l2 & E1 & E2).
  rewrite E1 in Hd. rewrite E2. apply NoDup_app in Hd as (H1 & H2 & H3).
  apply NoDup_cons in H3 as [H3 H4]. apply NoDup_app. split_and!; [done| |done].
  intros x Hx Hx'. apply (H2 x Hx). by apply elem_of_cons; right.
Qed.

(** On a dict, the popped key is gone afterwards. *)
Lemma get_pop_eq k d v d' : wf d → pop k d = Some (v, d') → get k d' = None.
Proof.
  unfold wf. intros Hd Hp. apply get_None_keys.
  destruct (keys_pop _ _ _ _ Hp) as (l1 & l2 & E1 & E2).
  rewrite E1 in Hd. rewrite E2. apply NoDup_app in Hd as (H1 & H2 & H3).
  apply NoDup_cons in H3 as [H3 H4]. rewrite elem_of_app. intros [Hin|Hin]; [|done].
  apply (H2 k Hin). by apply elem_of_cons; left.
Qed.

Lemma get_pop_ne k k' d v d' :
  k ≠ k' → pop k d = Some (v, d') → get k' d' = get k' d.
Proof.
  intros Hne. revert d'. induction d as [|[k0 v0] d IH]; simpl; intros d'; [done|].
  destruct (decide (k = k0)) as [->|Hne0].
  - intros [= -> ->]. by rewrite decide_False.
  - destruct (pop k d) as [[w d'']|] eqn:E; [|done].
    intros [= -> <-]. simpl. destruct (decide (k' = k0)); eauto.
Qed.

Lemma len_pop k d v d' : pop k d = Some (v, d') → len d = S (len d').
Proof.
  unfold len. revert d'. induction d as [|[k0 v0] d IH]; simpl; intros d'; [done|].
  destruct (decide (k = k0)); [by intros [= -> ->]|].
  destruct (pop k d) as [[w d'']|] eqn:E; [|done].
  intros [= -> <-]. simpl. f_equal. eauto.
Qed.

Lemma Forall_set (P : K * V → Prop) k v d :
  P (k, v) → Forall P d → Forall P (set k v d).
Proof.
  intros Hkv. induction 1 as [|[k0 v0] d H0 Hd IH]; simpl.
  - by repeat constructor.
  - destruct (decide (k = k0)); by constructor.
Qed.

Lemma Forall_pop (P : K * V → Prop) k d v d' :
  pop k d = Some (v, d') → Forall P d → Forall P d'.
Proof.
  intros Hp Hd. revert d' Hp. induction Hd as [|[k0 v0] d H0 Hd IH]; simpl; intros d'; [done|].
  destruct (decide (k = k0)); [by intros [= -> ->]|].
  destruct (pop k d) as [[w d'']|] eqn:E; [|done].
  intros [= -> <-]. constructor; eauto.
Qed.

End facts.
End PyDictFacts.

(** ** Strings *)

Lemma str_contains_spec (c : ascii) (s : string) :
  str_contains c s = true ↔ c ∈ list_ascii_of_string s.
Proof.
  induction s as [|c' s IH]; simpl.
  - split; [done | intros Hin; by apply elem_of_nil in Hin].
  - rewrite elem_of_cons. destruct (decide (c' = c)) as [->|Hne].
    + split; auto.
    + rewrite IH. split; [auto | intros [->|Hin]; done].
Qed.

Lemma str_contains_false (c : ascii) (s : string) :
  str_contains c s = false ↔ c ∉ list_ascii_of_string s.
Proof.
  rewrite <- str_contains_spec. by destruct (str_contains c s).
Qed.

Lemma str_split_nonempty (sep : ascii) (s : string) : str_split sep s ≠ [].
Proof.
  destruct s as [|c s]; simpl; [done|].
  destruct (decide (c = sep)); [done|]. by destruct (str_split sep s).
Qed.

(** A string without the separator is not split. *)
Lemma str_split_absent (sep : ascii) (s : string) :
  str_contains sep s = false → str_split sep s = [s].
Proof.
  induction s as [|c s IH]; simpl; [done|].
  destruct (decide (c = sep)); [done|]. intros Hs. by rewrite IH.
Qed.

(** Splitting distributes over an occurrence of the separator. *)
Lemma str_split_app (sep : ascii) (pre suf : string) :
  str_split sep (pre +:+ String sep suf) = str_split sep pre ++ str_split sep suf.
Proof.
  induction pre as [|c pre IH]; simpl.
  - by rewrite decide_True.
  - destruct (decide (c = sep)); [by rewrite IH|].
    rewrite IH. destruct (str_split sep pre) as [|w ws] eqn:E; [|done].
    by apply str_split_nonempty in E.
Qed.

Lemma str_contains_app (sep : ascii) (pre suf : string) :
  str_contains sep (pre +:+ String sep suf) = true.
Proof.
  induction pre as [|c pre IH]; simpl.
  - by rewrite decide_True.
  - by destruct (decide (c = sep)).
Qed.

(** The last piece of a split is what follows the last separator. *)
Lemma last_item_split (sep : ascii) (pre suf : string) :
  sep ∉ list_ascii_of_string suf →
  last_item (str_split sep (pre +:+ String sep suf)) = suf.
Proof.
  intros Hsuf. apply str_contains_false in Hsuf.
  unfold last_item. rewrite str_split_app, last_app.
  by rewrite (str_split_absent _ _ Hsuf).
Qed.

(** ** The field deriver *)

Section deriver.
Context `{Builtins}.

(** C4: the age category is "young" exactly below 30, "middle" exactly from
    30 to 49, "senior" exactly from 50 on, and [is_adult] holds exactly from
    18 on; the ages 29/30, 49/50 and 17/18 fall on the stated sides. *)
Theorem derive_age_category_is_adult (user : User.t) :
  let d := derive_processed_data user in
  (ProcessedData.age_category d = "young" ↔ User.age user < 30) ∧
  (ProcessedData.age_category d = "middle" ↔ 30 ≤ User.age user < 50) ∧
  (ProcessedData.age_category d = "senior" ↔ 50 ≤ User.age user) ∧
  (ProcessedData.is_adult d = true ↔ 18 ≤ User.age user) ∧
  (∀ i n e,
     let at_age a := derive_processed_data (User.make i n e a) in
     ProcessedData.age_category (at_age 29) = "young" ∧
     ProcessedData.age_category (at_age 30) = "middle" ∧
     ProcessedData.age_category (at_age 49) = "middle" ∧
     ProcessedData.age_category (at_age 50) = "senior" ∧
     ProcessedData.is_adult (at_age 17) = false ∧
     ProcessedData.is_adult (at_age 18) = true).
Proof.
  simpl. split_and!.
  - destruct (decide (User.age user < 30)); [done|].
    destruct (decide (User.age user < 50)); split; (done || lia).
  - destruct (decide (User.age user < 30)); [split; (done || lia)|].
    destruct (decide (User.age user < 50)); split; (done || lia).
  - destruct (decide (User.age user < 30)); [split; (done || lia)|].
    destruct (decide (User.age user < 50)); split; (done || lia).
  - rewrite bool_decide_eq_true. lia.
  - intros i n e. by split_and!.
Qed.

Lemma derive_category_valid (user : User.t) :
  valid_category (ProcessedData.age_category (derive_processed_data user)).
Proof.
  unfold valid_category. simpl.
  destruct (decide (User.age user < 30)); [auto|].
  destruct (decide (User.age user < 50)); auto.
Qed.

(** C9: the email domain is what follows the last "@" of the email when
    there is one, and "unknown" when the email has no "@"; "a@b.com" gives
    "b.com" and "noatsign" gives "unknown". *)
Theorem derive_email_domain (user : User.t) :
  let d := derive_processed_data user in
  (∀ pre suf,
     User.email user = pre +:+ "@" +:+ suf →
     "@"%char ∉ list_ascii_of_string suf →
     ProcessedData.email_domain d = suf) ∧
  ("@"%char ∉ list_ascii_of_string (User.email user) →
   ProcessedData.email_domain d = "unknown") ∧
  (∀ i n a,
     ProcessedData.email_domain (derive_processed_data (User.make i n "a@b.com" a))
     = "b.com" ∧
     ProcessedData.email_domain (derive_processed_data (User.make i n "noatsign" a))
     = "unknown").
Proof.
  simpl. split_and!.
  - intros pre suf -> Hsuf. change ("@" +:+ suf) with (String "@" suf).
    rewrite str_contains_app. by apply last_item_split.
  - intros Hno. apply str_contains_false in Hno. by rewrite Hno.
  - done.
Qed.

End deriver.

(** ** The record store *)

Section store.
Context `{Builtins}.

Lemma store_inv_initial : store_inv initial_state.
Proof. split; simpl; [apply PyDictFacts.wf_nil | constructor | constructor]. Qed.

Lemma store_inv_process now user st :
  store_inv st → store_inv (process_user now user st).2.
Proof.
  intros [Hwf Hk Hc]. unfold process_user.
  destruct (User.id user) as [uid|]; [|done].
  destruct (decide (uid = 0)); [done|]. split; simpl.
  - by apply PyDictFacts.wf_set.
  - by apply PyDictFacts.Forall_set.
  - apply PyDictFacts.Forall_set; [|done]. apply derive_category_valid.
Qed.

Lemma store_inv_delete user_id st :
  store_inv st → store_inv (delete_processed_user user_id st).2.
Proof.
  intros [Hwf Hk Hc]. unfold delete_processed_user.
  destruct (negb _); [done|].
  destruct (PyDict.pop user_id (processed_users_db st)) as [[r db]|] eqn:E; [|done].
  split; simpl.
  - eapply PyDictFacts.wf_pop; eauto.
  - eapply PyDictFacts.Forall_pop; eauto.
  - eapply PyDictFacts.Forall_pop; eauto.
Qed.

(** Every state the service reaches satisfies the store invariant. *)
Lemma reachable_inv st : reachable st → store_inv st.
Proof.
  induction 1; auto using store_inv_initial, store_inv_process, store_inv_delete.
Qed.

(** What [delete_processed_user] does on an absent identifier. *)
Lemma delete_absent user_id st :
  PyDict.get user_id (processed_users_db st) = None →
  delete_processed_user user_id st
  = (Raise (HTTPException 404 "Processed user data not found"), st).
Proof.
  intros Hg. unfold delete_processed_user.
  apply PyDictFacts.contains_false in Hg. by rewrite Hg.
Qed.

(** What [delete_processed_user] does on a stored identifier. *)
Lemma delete_present user_id st r :
  PyDict.get user_id (processed_users_db st) = Some r →
  ∃ db, PyDict.pop user_id (processed_users_db st) = Some (r, db) ∧
        delete_processed_user user_id st
        = (Return (Message ("Processed data for user " +:+ pretty user_id
                            +:+ " deleted successfully")),
           {| processed_users_db := db; analytics_cache := [] |}).
Proof.
  intros Hg. destruct (PyDictFacts.get_Some_pop _ _ _ Hg) as [db Hp].
  exists db. split; [done|]. unfold delete_processed_user.
  assert (PyDict.contains user_id (processed_users_db st) = true) as ->.
  { apply PyDictFacts.contains_get. eauto. }
  simpl. by rewrite Hp.
Qed.

(** After a delete the identifier is no longer served, whatever the delete
    itself answered. *)
Lemma get_after_delete user_id st :
  PyDict.wf (processed_users_db st) →
  get_processed_user user_id (delete_processed_user user_id st).2
  = Raise (HTTPException 404 "Processed user data not found").
Proof.
  intros Hwf. unfold get_processed_user.
  destruct (PyDict.get user_id (processed_users_db st)) as [r|] eqn:Hg.
  - destruct (delete_present _ _ _ Hg) as (db & Hp & ->). simpl.
    by rewrite (PyDictFacts.get_pop_eq _ _ _ _ Hwf Hp).
  - rewrite (delete_absent _ _ Hg). simpl. by rewrite Hg.
Qed.

(** C5: posting a user with a (present, non-zero) identifier and then
    getting that identifier returns the record derived from that user; after
    a delete of the identifier, getting it answers 404. *)
Theorem post_get_delete_roundtrip (now : string) (user : User.t) (uid : Z) (st : state) :
  User.id user = Some uid → uid ≠ 0 → PyDict.wf (processed_users_db st) →
  let posted := process_user now user st in
  let deleted := delete_processed_user uid posted.2 in
  status_of posted.1 = 200 ∧
  get_processed_user uid posted.2
  = Return (Stored {| ProcessedUserData.user_id := uid;
                      ProcessedUserData.processed_data := derive_processed_data user;
                      ProcessedUserData.processing_timestamp := now;
                      ProcessedUserData.analytics := fixed_analytics |}) ∧
  status_of deleted.1 = 200 ∧
  get_processed_user uid deleted.2
  = Raise (HTTPException 404 "Processed user data not found") ∧
  status_of (get_processed_user uid deleted.2) = 404.
Proof.
  intros Hid Hnz Hwf posted deleted.
  assert (posted = (Return (UserMessage "User processed successfully" uid),
                    {| processed_users_db :=
                         PyDict.set uid
                           {| ProcessedUserData.user_id := uid;
                              ProcessedUserData.processed_data := derive_processed_data user;
                              ProcessedUserData.processing_timestamp := now;
                              ProcessedUserData.analytics := fixed_analytics |}
                           (processed_users_db st);
                       analytics_cache := [] |})) as Hposted.
  { unfold posted, process_user. rewrite Hid. by rewrite decide_False. }
  assert (PyDict.wf (processed_users_db posted.2)) as Hwf'.
  { rewrite Hposted. simpl. by apply PyDictFacts.wf_set. }
  assert (get_processed_user uid deleted.2
          = Raise (HTTPException 404 "Processed user data not found")) as Hgone.
  { by apply get_after_delete. }
  split_and!.
  - by rewrite Hposted.
  - rewrite Hposted. unfold get_processed_user. simpl.
    by rewrite PyDictFacts.get_set_eq.
  - unfold deleted.
    edestruct (delete_present uid posted.2) as (db & _ & ->); [|done].
    rewrite Hposted. simpl. apply PyDictFacts.get_set_eq.
  - done.
  - by rewrite Hgone.
Qed.

(** C6, as amended: on an absent identifier the delete answers 404 and
    leaves the store alone; on a stored one it takes the record out of the
    store (the other entries stay) and answers with a confirmation message
    that names the identifier, not with the record. *)
Theorem delete_processed_user_spec (user_id : Z) (st : state) :
  PyDict.wf (processed_users_db st) →
  (PyDict.get user_id (processed_users_db st) = None →
   delete_processed_user user_id st
   = (Raise (HTTPException 404 "Processed user data not found"), st)) ∧
  (∀ r, PyDict.get user_id (processed_users_db st) = Some r →
     ∃ db,
       PyDict.pop user_id (processed_users_db st) = Some (r, db) ∧
       delete_processed_user user_id st
       = (Return (Message ("Processed data for user " +:+ pretty user_id
                           +:+ " deleted successfully")),
          {| processed_users_db := db; analytics_cache := [] |}) ∧
       PyDict.get user_id db = None ∧
       (∀ k, k ≠ user_id → PyDict.get k db = PyDict.get k (processed_users_db st)) ∧
       PyDict.len (processed_users_db st) = S (PyDict.len db)).
Proof.
  intros Hwf. split; [apply delete_absent|].
  intros r Hg. destruct (delete_present _ _ _ Hg) as (db & Hp & Hd).
  exists db. split_and!; [done|done| | |].
  - eapply PyDictFacts.get_pop_eq; eauto.
  - intros k Hk. eapply PyDictFacts.get_pop_ne; eauto.
  - eapply PyDictFacts.len_pop; eauto.
Qed.

End store.

(** ** The analytics aggregator *)

Lemma tally_bump (c : string) (y m o : Z) :
  valid_category c →
  ∃ y' m' o',
    PyDict.set c (default 0 (PyDict.get c (tally y m o)) + 1) (tally y m o)
    = tally y' m' o' ∧
    y ≤ y' ∧ m ≤ m' ∧ o ≤ o' ∧ y' + m' + o' = y + m + o + 1.
Proof.
  intros [-> | [-> | ->]].
  - exists (y + 1), m, o. split; [done | lia].
  - exists y, (m + 1), o. split; [done | lia].
  - exists y, m, (o + 1). split; [done | lia].
Qed.

Section aggregator.
Context `{Builtins}.

Lemma estimate_values :
  estimate "young" = 25 ∧ estimate "middle" = 40 ∧ estimate "senior" = 60.
Proof. done. Qed.

(** The lookups that end in the [except] branch: the call raises, the body
    of a 200 answer is not JSON, or it has no ["age"] member. *)
Lemma fetch_age_raises (r : reply) :
  (∃ e, fetch_age r = Raise e) ↔
  (∃ e, r = Fails e) ∨ r = Responds 200 None ∨
  (∃ user e, r = Responds 200 (Some user) ∧ subscript user "age" = Raise e).
Proof.
  split.
  - intros [e He]. destruct r as [e'|sc body]; simpl in He; [eauto|].
    destruct (decide (sc = 200)) as [->|]; [|done].
    destruct body as [user|]; [|auto].
    destruct (subscript user "age") eqn:E; [done|]. right; right; eauto.
  - intros [[e ->] | [-> | (user & e & -> & Hs)]]; simpl; eauto.
    rewrite Hs. eauto.
Qed.

(** A lookup answered with a status other than 200 raises nothing and
    yields no age. *)
Lemma fetch_age_non_200 (status_code : Z) (body : option json) :
  status_code ≠ 200 → fetch_age (Responds status_code body) = Return None.
Proof. intros Hsc. simpl. by rewrite decide_False. Qed.

Lemma analytics_step_on_raise p ages dist log r e :
  fetch_age (p log (GetUser (ProcessedUserData.user_id r))) = Raise e →
  (analytics_step p (ages, dist, log) r).1.1
  = ages ++ [JInt (estimate (category_of r))].
Proof. intros He. simpl. by rewrite He. Qed.

Lemma analytics_step_on_non_200 p ages dist log r status_code body :
  p log (GetUser (ProcessedUserData.user_id r)) = Responds status_code body →
  status_code ≠ 200 →
  (analytics_step p (ages, dist, log) r).1.1 = ages.
Proof.
  intros Hr Hsc. unfold analytics_step, call. rewrite Hr.
  by rewrite fetch_age_non_200.
Qed.

Lemma analytics_loop_cons p r records acc :
  analytics_loop p (r :: records) acc
  = analytics_loop p records (analytics_step p acc r).
Proof. reflexivity. Qed.

Lemma analytics_step_eq p ages dist log r :
  analytics_step p (ages, dist, log) r
  = (match fetch_age (p log (GetUser (ProcessedUserData.user_id r))) with
     | Return (Some v) => ages ++ [v]
     | Return None => ages
     | Raise _ => ages ++ [JInt (estimate (category_of r))]
     end,
     PyDict.set (category_of r)
       (default 0 (PyDict.get (category_of r) dist) + 1) dist,
     log ++ [GetUser (ProcessedUserData.user_id r)]).
Proof. reflexivity. Qed.

(** The loop bumps one bucket and makes one call per record. *)
Lemma analytics_loop_tally p records :
  Forall (λ r, valid_category (category_of r)) records →
  ∀ ages y m o log,
  ∃ ages' y' m' o',
    analytics_loop p records (ages, tally y m o, log)
    = (ages', tally y' m' o',
       log ++ ((λ r, GetUser (ProcessedUserData.user_id r)) <$> records)) ∧
    y ≤ y' ∧ m ≤ m' ∧ o ≤ o' ∧
    y' + m' + o' = y + m + o + Z.of_nat (length records) ∧
    (length ages' ≤ length ages + length records)%nat.
Proof.
  induction 1 as [|r records Hr Hrs IH]; intros ages y m o log.
  - exists ages, y, m, o. simpl. rewrite app_nil_r. split; [done | lia].
  - destruct (tally_bump _ y m o Hr) as (y1 & m1 & o1 & Ht & Hy & Hm & Ho & Hsum).
    rewrite analytics_loop_cons, analytics_step_eq, Ht.
    set (ages1 := match fetch_age _ with
                  | Return (Some v) => ages ++ [v]
                  | Return None => ages
                  | Raise _ => ages ++ [JInt (estimate (category_of r))]
                  end).
    destruct (IH ages1 y1 m1 o1 (log ++ [GetUser (ProcessedUserData.user_id r)]))
      as (ages' & y' & m' & o' & Hloop & Hy' & Hm' & Ho' & Hsum' & Hlen).
    exists ages', y', m', o'. rewrite Hloop.
    rewrite <- app_assoc. split; [done|].
    assert (length ages1 ≤ S (length ages))%nat.
    { unfold ages1. destruct (fetch_age _) as [[v|]|e]; rewrite ?length_app; simpl; lia. }
    simpl length. lia.
Qed.

(** C8: on the empty store the summary has no users, average 0.0, an empty
    distribution and empty statistics, and the peer is not called. *)
Theorem get_analytics_empty_store (p : peer) (cache : PyDict.t string json) :
  get_analytics p {| processed_users_db := []; analytics_cache := cache |}
  = (Return (Summary {| AnalyticsSummary.total_users := 0;
                        AnalyticsSummary.average_age := 0%Q;
                        AnalyticsSummary.age_distribution := [];
                        AnalyticsSummary.processing_stats := [] |}),
     []).
Proof. reflexivity. Qed.

(** [get_analytics] past its empty-store guard. *)
Lemma get_analytics_nonempty (p : peer) (st : state) :
  processed_users_db st ≠ [] →
  get_analytics p st
  = let '(ages, age_distribution, log) :=
      analytics_loop p (PyDict.values (processed_users_db st))
        ([], tally 0 0 0, []) in
    (average_age ← mean ages;
     Return (Summary
       {| AnalyticsSummary.total_users := Z.of_nat (PyDict.len (processed_users_db st));
          AnalyticsSummary.average_age := round2 average_age;
          AnalyticsSummary.age_distribution := age_distribution;
          AnalyticsSummary.processing_stats :=
            [("total_processed", JInt (Z.of_nat (PyDict.len (processed_users_db st))));
             ("avg_processing_time_ms", JInt 150);
             ("avg_confidence_level", JFloat (88 # 100));
             ("avg_data_quality_score", JFloat (95 # 100))] |}),
     log).
Proof. intros Hne. unfold get_analytics. by destruct (processed_users_db st). Qed.

(** C10: on a non-empty store that the service has reached, the loop leaves
    a distribution with exactly the buckets "young", "middle" and "senior",
    every count non-negative and the counts adding up to the number of
    stored records; a summary that is returned carries that distribution,
    with [total_users] the number of stored records. *)
Theorem get_analytics_distribution (p : peer) (st : state) :
  reachable st → processed_users_db st ≠ [] →
  ∃ y m o,
    (analytics_loop p (PyDict.values (processed_users_db st))
       ([], tally 0 0 0, [])).1.2
    = [("young", y); ("middle", m); ("senior", o)] ∧
    0 ≤ y ∧ 0 ≤ m ∧ 0 ≤ o ∧
    y + m + o = Z.of_nat (PyDict.len (processed_users_db st)) ∧
    ∀ s, (get_analytics p st).1 = Return (Summary s) →
      AnalyticsSummary.age_distribution s
      = [("young", y); ("middle", m); ("senior", o)] ∧
      PyDict.keys (AnalyticsSummary.age_distribution s) = ["young"; "middle"; "senior"] ∧
      y + m + o = AnalyticsSummary.total_users s.
Proof.
  intros Hreach Hne. apply reachable_inv in Hreach as [_ _ Hcat].
  rewrite (get_analytics_nonempty p st Hne).
  apply (Forall_fmap snd (λ r, valid_category (category_of r))) in Hcat.
  destruct (analytics_loop_tally p _ Hcat [] 0 0 0 [])
    as (ages & y & m & o & Hloop & Hy & Hm & Ho & Hsum & _).
  unfold PyDict.values. rewrite Hloop. cbn [fst snd].
  exists y, m, o. rewrite length_fmap in Hsum. unfold PyDict.len.
  split_and!; [done|lia|lia|lia|lia|].
  intros s. destruct (mean ages) as [avg|e]; [|done]. intros [= <-].
  split_and!; [done|done|]. cbn [AnalyticsSummary.total_users]. lia.
Qed.

(** When the peer never answers with a status other than 200, every record
    contributes one entry to [ages]. *)
Lemma analytics_loop_all_contribute p records :
  never_other_status p →
  ∀ ages dist log,
    length (analytics_loop p records (ages, dist, log)).1.1
    = (length ages + length records)%nat.
Proof.
  intros Hp. induction records as [|r records IH]; intros ages dist log.
  - simpl. lia.
  - rewrite analytics_loop_cons, analytics_step_eq, IH.
    destruct (p log (GetUser (ProcessedUserData.user_id r))) as [e|sc body] eqn:Er.
    + cbn [fetch_age]. rewrite length_app. simpl. lia.
    + rewrite (Hp _ _ _ _ Er). cbn [fetch_age]. rewrite decide_True by done.
      destruct body as [user|].
      * destruct (subscript user "age"); cbn [mbind outcome_bind];
          rewrite length_app; simpl; lia.
      * rewrite length_app. simpl. lia.
Qed.

(** With such a peer, a returned average is the sum of one value per stored
    record divided by the number of records, then rounded. *)
Lemma get_analytics_average_all_contribute (p : peer) (st : state) (s : AnalyticsSummary.t) :
  processed_users_db st ≠ [] → never_other_status p →
  (get_analytics p st).1 = Return (Summary s) →
  ∃ ages total,
    length ages = PyDict.len (processed_users_db st) ∧
    py_sum ages = Return total ∧
    AnalyticsSummary.average_age s
    = round2 (total / inject_Z (AnalyticsSummary.total_users s))%Q.
Proof.
  intros Hne Hp. rewrite (get_analytics_nonempty p st Hne).
  pose proof (analytics_loop_all_contribute p
                (PyDict.values (processed_users_db st)) Hp [] (tally 0 0 0) []) as Hlen.
  destruct (analytics_loop _ _ _) as [[ages dist] log]. cbn [fst] in *.
  unfold PyDict.values in Hlen. rewrite length_fmap in Hlen. simpl in Hlen.
  destruct ages as [|v ages].
  { destruct (processed_users_db st); [done | discriminate]. }
  unfold mean. destruct (py_sum (v :: ages)) as [total|e] eqn:Esum; [|done].
  intros [= <-]. exists (v :: ages), total. unfold PyDict.len.
  split_and!; [done|done|]. cbn [AnalyticsSummary.average_age AnalyticsSummary.total_users].
  by rewrite <- Hlen.
Qed.

(** With the peer unreachable, every record contributes its estimate. *)
Lemma analytics_loop_unreachable p records :
  unreachable p →
  ∀ ages dist log,
    (analytics_loop p records (ages, dist, log)).1.1
    = ages ++ ((λ r, JInt (estimate (category_of r))) <$> records).
Proof.
  intros Hp. induction records as [|r records IH]; intros ages dist log.
  - simpl. by rewrite app_nil_r.
  - rewrite analytics_loop_cons, analytics_step_eq, IH.
    destruct (Hp log (GetUser (ProcessedUserData.user_id r))) as [e ->].
    cbn [fetch_age]. by rewrite <- app_assoc.
Qed.

Lemma py_sum_from_estimates records :
  ∀ acc,
    py_sum_from acc ((λ r, JInt (estimate (category_of r))) <$> records)
    = Return (add_estimates acc records).
Proof.
  induction records as [|r records IH]; intros acc; [done|].
  cbn [fmap list_fmap py_sum_from py_add mbind outcome_bind]. apply IH.
Qed.

Lemma mean_nonempty (ages : list json) :
  ages ≠ [] →
  mean ages
  = (total ← py_sum ages; Return (total / inject_Z (Z.of_nat (length ages)))%Q).
Proof. by destruct ages. Qed.

(** The part of the fallback that works: with the peer unreachable the
    request is answered 200 and the average is the rounded mean of the
    category estimates of all stored records. *)
Lemma get_analytics_unreachable (p : peer) (st : state) :
  processed_users_db st ≠ [] → unreachable p →
  ∃ s, (get_analytics p st).1 = Return (Summary s) ∧
       AnalyticsSummary.average_age s
       = round2 (add_estimates 0 (PyDict.values (processed_users_db st))
                 / inject_Z (Z.of_nat (PyDict.len (processed_users_db st))))%Q.
Proof.
  intros Hne Hp. rewrite (get_analytics_nonempty p st Hne).
  pose proof (analytics_loop_unreachable p
                (PyDict.values (processed_users_db st)) Hp [] (tally 0 0 0) []) as Hages.
  destruct (analytics_loop _ _ _) as [[ages dist] log]. cbn [fst] in *.
  rewrite app_nil_l in Hages. subst ages.
  assert (length (PyDict.values (processed_users_db st))
          = PyDict.len (processed_users_db st)) as Hlen.
  { unfold PyDict.values, PyDict.len. apply length_fmap. }
  rewrite mean_nonempty.
  - unfold py_sum. rewrite py_sum_from_estimates. cbn [mbind outcome_bind].
    eexists. split; [reflexivity|]. cbn [AnalyticsSummary.average_age].
    by rewrite length_fmap, Hlen.
  - intros Hnil. apply (f_equal length) in Hnil. rewrite length_fmap, Hlen in Hnil.
    destruct (processed_users_db st); [done | discriminate].
Qed.

(** C1: a lookup answered with a status other than 200 is a failed lookup,
    yet no estimate enters [ages] for it.  Ann is stored as "young"; when
    the peer answers her lookup with 404, [ages] stays empty and the average
    is [round(0.0, 2)], where the estimate 25 was due; when the peer is
    down, the estimate is there. *)
Theorem non_200_lookup_adds_no_estimate :
  category_of <$> PyDict.values (processed_users_db store_ann) = ["young"] ∧
  analytics_loop peer_not_found (PyDict.values (processed_users_db store_ann))
    ([], tally 0 0 0, [])
  = ([], tally 1 0 0, [GetUser 1]) ∧
  (get_analytics peer_not_found store_ann).1
  = Return (Summary
      {| AnalyticsSummary.total_users := 1;
         AnalyticsSummary.average_age := round2 0%Q;
         AnalyticsSummary.age_distribution := tally 1 0 0;
         AnalyticsSummary.processing_stats :=
           [("total_processed", JInt 1);
            ("avg_processing_time_ms", JInt 150);
            ("avg_confidence_level", JFloat (88 # 100));
            ("avg_data_quality_score", JFloat (95 # 100))] |}) ∧
  analytics_loop peer_down (PyDict.values (processed_users_db store_ann))
    ([], tally 0 0 0, [])
  = ([JInt 25], tally 1 0 0, [GetUser 1]).
Proof. by split_and!. Qed.

(** C2: with Ann (looked up, age 22) and Bob (lookup answered 404) stored,
    the average is 22 / 1: the sum of the one value that was appended,
    divided by the length of [ages], not by the two stored records. *)
Theorem average_divides_by_appended_ages :
  PyDict.len (processed_users_db store_ann_bob) = 2%nat ∧
  analytics_loop peer_knows_ann (PyDict.values (processed_users_db store_ann_bob))
    ([], tally 0 0 0, [])
  = ([JInt 22], tally 1 1 0, [GetUser 1; GetUser 2]) ∧
  ∃ s, (get_analytics peer_knows_ann store_ann_bob).1 = Return (Summary s) ∧
       AnalyticsSummary.total_users s = 2 ∧
       AnalyticsSummary.average_age s = round2 (22 # 1).
Proof. split_and!; [done|done|]. eexists. by split_and!. Qed.

(** C3: a 200 answer whose ["age"] is not a number goes into [ages] as it
    is; [sum(ages)] then raises [TypeError] outside the [try] block and
    the request ends in a 500. *)
Theorem non_numeric_age_aborts_analytics :
  analytics_loop peer_text_age (PyDict.values (processed_users_db store_ann))
    ([], tally 0 0 0, [])
  = ([JStr "22"], tally 1 0 0, [GetUser 1]) ∧
  get_analytics peer_text_age store_ann = (Raise TypeError, [GetUser 1]) ∧
  status_of (get_analytics peer_text_age store_ann).1 = 500.
Proof. by split_and!. Qed.

End aggregator.

(** ** Batch processing *)

Section batch.
Context `{Builtins}.

Lemma batch_loop_completes p items :
  ∀ processed_count log,
    Forall (λ r, raised r = false) (submissions p items log) →
    batch_loop p items processed_count log
    = (Return (processed_count + count_200 (submissions p items log)),
       log ++ (PostProcessUser <$> items)).
Proof.
  induction items as [|user rest IH]; intros c log Hrs; simpl.
  - by rewrite Z.add_0_r, app_nil_r.
  - simpl in Hrs. apply Forall_cons in Hrs as [Hr Hrs]. unfold call.
    destruct (p log (PostProcessUser user)) as [e|sc body]; [done|].
    rewrite (IH _ _ Hrs). rewrite <- app_assoc. simpl.
    destruct (decide (sc = 200)) as [->|Hsc].
    + f_equal. f_equal. rewrite bool_decide_eq_true_2 by done. lia.
    + f_equal. f_equal. rewrite bool_decide_eq_false_2 by done. lia.
Qed.

Lemma batch_loop_aborts p items :
  ∀ processed_count log,
    Exists (λ r, raised r = true) (submissions p items log) →
    ∃ e log', batch_loop p items processed_count log = (Raise e, log') ∧
              (length log' ≤ length log + length items)%nat.
Proof.
  induction items as [|user rest IH]; intros c log Hrs; simpl in *.
  - by apply Exists_nil in Hrs.
  - unfold call. destruct (p log (PostProcessUser user)) as [e|sc body] eqn:Er.
    + exists e, (log ++ [PostProcessUser user]). split; [done|].
      rewrite length_app. simpl. lia.
    + apply Exists_cons in Hrs as [Hr|Hrs]; [done|].
      destruct (IH (if decide (sc = 200) then c + 1 else c) _ Hrs) as (e & log' & -> & Hlen).
      exists e, log'. split; [done|]. rewrite length_app in Hlen. simpl in Hlen. lia.
Qed.

(** C7, as amended: the batch answers 500 when the initial fetch fails (the
    call raises, the status is not 200, or the body is not JSON or cannot
    be iterated); on a fetched list, re-submissions answered with a status
    other than 200 are passed over without a trace and, as long as no
    re-submission raises, every user is re-submitted and the report counts
    the re-submissions answered 200; a re-submission that raises ends the
    batch with 500. *)
Theorem batch_process_users_spec (p : peer) :
  (∀ e, p [] GetUsers = Fails e →
     status_of (batch_process_users p).1 = 500 ∧ (batch_process_users p).2 = [GetUsers]) ∧
  (∀ status_code body, p [] GetUsers = Responds status_code body →
     status_code ≠ 200 ∨ body = None ∨
       (∃ users e, body = Some users ∧ py_iter users = Raise e) →
     status_of (batch_process_users p).1 = 500 ∧ (batch_process_users p).2 = [GetUsers]) ∧
  (∀ users items,
     p [] GetUsers = Responds 200 (Some users) → py_iter users = Return items →
     let replies := submissions p items [GetUsers] in
     (Forall (λ r, raised r = false) replies →
      batch_process_users p
      = (Return (BatchReport "Batch processing completed"
                   (Z.of_nat (length items)) (count_200 replies)),
         GetUsers :: (PostProcessUser <$> items))) ∧
     (Exists (λ r, raised r = true) replies →
      status_of (batch_process_users p).1 = 500)).
Proof.
  split_and!.
  - intros e He. unfold batch_process_users, batch_body, call. by rewrite He.
  - intros sc body Hr Hcase. unfold batch_process_users, batch_body, call. rewrite Hr.
    destruct (decide (sc = 200)) as [->|Hsc]; [|done].
    destruct Hcase as [?|[->|(users & e & -> & Hit)]]; [done|done|].
    by rewrite Hit.
  - intros users items Hr Hit replies. split.
    + intros Hok. unfold batch_process_users, batch_body, call. rewrite Hr, Hit.
      simpl. change ([] ++ [GetUsers]) with [GetUsers].
      rewrite (batch_loop_completes p items 0 [GetUsers] Hok). done.
    + intros Hbad. unfold batch_process_users, batch_body, call. rewrite Hr, Hit.
      simpl. change ([] ++ [GetUsers]) with [GetUsers].
      destruct (batch_loop_aborts p items 0 [GetUsers] Hbad) as (e & log' & -> & _).
      done.
Qed.

End batch.

(** * Further properties of the handlers *)

(** ** More facts about dictionaries *)

Module PyDictLaws.
Import PyDict.
Section laws.
Context {K V : Type} `{EqDecision K}.
Implicit Types (k : K) (v : V) (d : PyDict.t K V).

(** A new key goes to the end. *)
Lemma set_fresh k v d : get k d = None → set k v d = d ++ [(k, v)].
Proof.
  induction d as [|[k0 v0] d IH]; simpl; [done|].
  destruct (decide (k = k0)); [done|]. intros Hg. by rewrite IH.
Qed.

(** An existing key keeps its place: the keys do not change. *)
Lemma keys_set_bound k v d : is_Some (get k d) → keys (set k v d) = keys d.
Proof.
  intros [w Hw]. apply PyDictFacts.keys_set_present.
  destruct (decide (k ∈ keys d)) as [|Hn]; [done|].
  apply PyDictFacts.get_None_keys in Hn. congruence.
Qed.

Lemma len_keys d : length (keys d) = len d.
Proof. unfold keys, len. apply length_fmap. Qed.

(** The second of two writes to a key is the one that counts. *)
Lemma set_set k v1 v2 d : set k v2 (set k v1 d) = set k v2 d.
Proof.
  induction d as [|[k0 v0] d IH]; simpl.
  - by rewrite decide_True.
  - destruct (decide (k = k0)) as [->|Hne]; simpl.
    + by rewrite decide_True.
    + rewrite decide_False by done. by rewrite IH.
Qed.

(** Popping a key that was just added undoes the addition. *)
Lemma pop_set_fresh k v d : get k d = None → pop k (set k v d) = Some (v, d).
Proof.
  induction d as [|[k0 v0] d IH]; simpl.
  - by rewrite decide_True.
  - destruct (decide (k = k0)); [done|]. intros Hg. simpl.
    rewrite decide_False by done. by rewrite IH.
Qed.

(** In a dict, the bindings are exactly what [get] finds. *)
Lemma elem_of_get k v d : wf d → (k, v) ∈ d ↔ get k d = Some v.
Proof.
  unfold wf, keys. induction d as [|[k0 v0] d IH]; simpl; intros Hd.
  - split; [intros Hin; by apply elem_of_nil in Hin | done].
  - apply NoDup_cons in Hd as [Hk0 Hd]. rewrite elem_of_cons.
    destruct (decide (k = k0)) as [->|Hne].
    + split.
      * intros [[= ->]|Hin]; [done|]. destruct Hk0.
        apply list_elem_of_fmap. by exists (k0, v).
      * intros [= ->]. by left.
    + rewrite <- (IH Hd). split; [|by right].
      intros [[= -> ->]|Hin]; done.
Qed.

(** Writes to different keys do not interfere, whatever their order. *)
Lemma get_set_set_comm k1 k2 v1 v2 d k :
  k1 ≠ k2 → get k (set k1 v1 (set k2 v2 d)) = get k (set k2 v2 (set k1 v1 d)).
Proof.
  intros Hne. destruct (decide (k = k1)) as [->|H1].
  - rewrite PyDictFacts.get_set_eq.
    rewrite PyDictFacts.get_set_ne by done. by rewrite PyDictFacts.get_set_eq.
  - rewrite (PyDictFacts.get_set_ne k1 k) by done.
    destruct (decide (k = k2)) as [->|H2].
    + by rewrite !PyDictFacts.get_set_eq.
    + by rewrite !PyDictFacts.get_set_ne by done.
Qed.

End laws.
End PyDictLaws.

(** ** More on the record store *)

Section store_laws.
Context `{Builtins}.

(** [process_user], by whether the identifier is accepted. *)
Lemma process_user_cases now user st :
  process_user now user st
  = match accepted_id user with
    | Some uid =>
        (Return (UserMessage "User processed successfully" uid),
         {| processed_users_db :=
              PyDict.set uid (record_of now uid user) (processed_users_db st);
            analytics_cache := [] |})
    | None => (Raise (HTTPException 400 "User ID is required"), st)
    end.
Proof.
  unfold process_user, accepted_id. destruct (User.id user) as [uid|]; [|done].
  by destruct (decide (uid = 0)).
Qed.

Lemma accepted_id_Some user uid :
  accepted_id user = Some uid ↔ User.id user = Some uid ∧ uid ≠ 0.
Proof.
  unfold accepted_id. destruct (User.id user) as [i|].
  - destruct (decide (i = 0)) as [->|Hi].
    + split; [done | by intros [[= <-] ?]].
    + split; [by intros [= ->] | by intros [[= ->] _]].
  - split; [done | by intros [? _]].
Qed.

Lemma get_Some_elem (k : Z) (r : ProcessedUserData.t) d :
  PyDict.get k d = Some r → (k, r) ∈ d.
Proof.
  induction d as [|[k0 r0] d IH]; simpl; [done|].
  destruct (decide (k = k0)) as [->|Hne].
  - intros [= ->]. by left.
  - intros Hg. right. auto.
Qed.

(** X1: a post is answered 200 exactly when the user carries an identifier
    other than zero; otherwise it is answered 400 and the state stays as it
    was. *)
Theorem process_user_validation (now : string) (user : User.t) (st : state) :
  (status_of (process_user now user st).1 = 200
   ↔ ∃ uid, User.id user = Some uid ∧ uid ≠ 0) ∧
  (status_of (process_user now user st).1 ≠ 200 →
   process_user now user st = (Raise (HTTPException 400 "User ID is required"), st)).
Proof.
  rewrite process_user_cases. destruct (accepted_id user) as [uid|] eqn:E; simpl.
  - apply accepted_id_Some in E. split; [|done]. split; eauto.
  - split; [|done]. split; [done|]. intros (uid & Hid & Hnz).
    assert (accepted_id user = Some uid) as E' by by apply accepted_id_Some.
    congruence.
Qed.

(** X2: a post changes nothing for any identifier other than the posted
    one. *)
Theorem process_user_other_ids (now : string) (user : User.t) (st : state) (k : Z) :
  User.id user ≠ Some k →
  get_processed_user k (process_user now user st).2 = get_processed_user k st.
Proof.
  intros Hk. rewrite process_user_cases.
  destruct (accepted_id user) as [uid|] eqn:E; [|done].
  apply accepted_id_Some in E as [Hid _]. unfold get_processed_user. simpl.
  rewrite PyDictFacts.get_set_ne; [done|]. congruence.
Qed.

(** X3: the last write wins: posting [u1] and then [u2] under the same
    identifier leaves the state that posting [u2] alone leaves. *)
Theorem process_user_last_write_wins (now1 now2 : string) (u1 u2 : User.t) (st : state) :
  User.id u1 = User.id u2 →
  (process_user now2 u2 (process_user now1 u1 st).2).2
  = (process_user now2 u2 st).2.
Proof.
  intros Hid. rewrite !process_user_cases.
  assert (accepted_id u1 = accepted_id u2) as E by (unfold accepted_id; by rewrite Hid).
  rewrite E. destruct (accepted_id u2) as [uid|]; [|done]. simpl.
  by rewrite PyDictLaws.set_set.
Qed.

(** X4: posts under different identifiers can be made in either order: every
    identifier is served the same record afterwards. *)
Theorem process_user_commute (now1 now2 : string) (u1 u2 : User.t) (st : state) (k : Z) :
  User.id u1 ≠ User.id u2 →
  get_processed_user k (process_user now2 u2 (process_user now1 u1 st).2).2
  = get_processed_user k (process_user now1 u1 (process_user now2 u2 st).2).2.
Proof.
  intros Hid. rewrite !process_user_cases.
  destruct (accepted_id u1) as [i1|] eqn:E1, (accepted_id u2) as [i2|] eqn:E2;
    simpl; rewrite ?E1, ?E2; try done.
  apply accepted_id_Some in E1 as [H1 _]. apply accepted_id_Some in E2 as [H2 _].
  unfold get_processed_user. simpl.
  rewrite PyDictLaws.get_set_set_comm; [done|]. congruence.
Qed.

(** X5: the listing keeps the order of first posting: a post under a new
    identifier adds its record at the end; a post under a stored identifier
    changes neither the keys nor the length of the listing. *)
Theorem listing_after_post (now : string) (user : User.t) (uid : Z) (st : state) :
  User.id user = Some uid → uid ≠ 0 →
  let st' := (process_user now user st).2 in
  (PyDict.get uid (processed_users_db st) = None →
   get_all_processed_users st'
   = get_all_processed_users st ++ [record_of now uid user]) ∧
  (is_Some (PyDict.get uid (processed_users_db st)) →
   PyDict.keys (processed_users_db st') = PyDict.keys (processed_users_db st) ∧
   length (get_all_processed_users st') = length (get_all_processed_users st)).
Proof.
  intros Hid Hnz st'. unfold st'. rewrite process_user_cases.
  assert (accepted_id user = Some uid) as -> by by apply accepted_id_Some.
  unfold get_all_processed_users, PyDict.values. simpl. split.
  - intros Hfresh. rewrite PyDictLaws.set_fresh by done. by rewrite fmap_app.
  - intros Hbound. pose proof (PyDictLaws.keys_set_bound uid (record_of now uid user) _ Hbound) as Hk.
    split; [done|]. apply (f_equal length) in Hk. unfold PyDict.keys in Hk.
    by rewrite !length_fmap in *.
Qed.

(** X6: in a reachable state, the listing holds exactly the records that
    are served under their own identifier. *)
Theorem listing_matches_lookup (st : state) (r : ProcessedUserData.t) :
  reachable st →
  r ∈ get_all_processed_users st
  ↔ get_processed_user (ProcessedUserData.user_id r) st = Return (Stored r).
Proof.
  intros Hreach. apply reachable_inv in Hreach as [Hwf Hkeys _].
  unfold get_all_processed_users, PyDict.values, get_processed_user.
  rewrite list_elem_of_fmap. split.
  - intros ([k r'] & -> & Hin). simpl.
    rewrite Forall_forall in Hkeys. pose proof (Hkeys _ Hin) as Hk. simpl in Hk.
    rewrite Hk. apply (PyDictLaws.elem_of_get _ _ _ Hwf) in Hin. by rewrite Hin.
  - destruct (PyDict.get _ _) as [r'|] eqn:Hg; [|done]. intros [= ->].
    exists (ProcessedUserData.user_id r, r). split; [done|]. by apply get_Some_elem.
Qed.

(** What every stored record of a reachable state looks like. *)
Lemma reachable_records st :
  reachable st →
  Forall (λ kv, kv.1 ≠ 0 ∧
                ∃ now user, User.id user = Some kv.1 ∧ kv.2 = record_of now kv.1 user)
    (processed_users_db st).
Proof.
  induction 1 as [|now user st Hst IH|user_id st Hst IH].
  - constructor.
  - rewrite process_user_cases. destruct (accepted_id user) as [uid|] eqn:E; [|done].
    apply accepted_id_Some in E as [Hid Hnz]. simpl.
    apply PyDictFacts.Forall_set; [|done]. simpl. eauto.
  - unfold delete_processed_user. destruct (negb _); [done|].
    destruct (PyDict.pop user_id (processed_users_db st)) as [[r db]|] eqn:E; [|done].
    simpl. eapply PyDictFacts.Forall_pop; eauto.
Qed.

(** X7: every record a reachable state serves was derived from a user
    that carried the identifier it is served under, which is not zero; so
    its fields fit together: a record that is not "young" is an adult, and
    [age_squared] and [name_length] are not negative. *)
Theorem reachable_record_derived (st : state) (k : Z) (r : ProcessedUserData.t) :
  reachable st → get_processed_user k st = Return (Stored r) →
  k ≠ 0 ∧ ProcessedUserData.user_id r = k ∧
  (∃ now user, User.id user = Some k ∧ r = record_of now k user) ∧
  (category_of r ≠ "young" →
   ProcessedData.is_adult (ProcessedUserData.processed_data r) = true) ∧
  0 ≤ ProcessedData.age_squared (ProcessedUserData.processed_data r) ∧
  0 ≤ ProcessedData.name_length (ProcessedUserData.processed_data r).
Proof.
  intros Hreach. unfold get_processed_user.
  destruct (PyDict.get k (processed_users_db st)) as [r'|] eqn:Hg; [|done].
  intros [= ->]. apply get_Some_elem in Hg.
  pose proof (reachable_records st Hreach) as Hall. rewrite Forall_forall in Hall.
  destruct (Hall _ Hg) as (Hnz & now & user & Hid & Hr). simpl in *. subst r.
  split_and!; [done|done|eauto| | |].
  - unfold category_of. simpl. intros Hcat. rewrite bool_decide_eq_true.
    destruct (decide (User.age user < 30)); [done | lia].
  - simpl. lia.
  - simpl. lia.
Qed.

(** X8: posting under a new identifier and deleting it again gives back
    the store as it was. *)
Theorem post_then_delete_restores (now : string) (user : User.t) (uid : Z) (st : state) :
  User.id user = Some uid → uid ≠ 0 →
  PyDict.get uid (processed_users_db st) = None →
  status_of (delete_processed_user uid (process_user now user st).2).1 = 200 ∧
  processed_users_db (delete_processed_user uid (process_user now user st).2).2
  = processed_users_db st.
Proof.
  intros Hid Hnz Hfresh. rewrite process_user_cases.
  assert (accepted_id user = Some uid) as -> by by apply accepted_id_Some.
  unfold delete_processed_user. simpl.
  assert (PyDict.contains uid (PyDict.set uid (record_of now uid user)
                                 (processed_users_db st)) = true) as ->.
  { apply PyDictFacts.contains_get. rewrite PyDictFacts.get_set_eq. eauto. }
  simpl. by rewrite PyDictLaws.pop_set_fresh.
Qed.

(** X9: a delete cannot be repeated: whatever the first delete answered,
    a second delete of the same identifier answers 404 and leaves the state
    alone. *)
Theorem delete_twice (user_id : Z) (st : state) :
  PyDict.wf (processed_users_db st) →
  let st' := (delete_processed_user user_id st).2 in
  delete_processed_user user_id st'
  = (Raise (HTTPException 404 "Processed user data not found"), st').
Proof.
  intros Hwf st'. apply delete_absent. unfold st'.
  destruct (PyDict.get user_id (processed_users_db st)) as [r|] eqn:Hg.
  - destruct (delete_present _ _ _ Hg) as (db & Hp & ->). simpl.
    eapply PyDictFacts.get_pop_eq; eauto.
  - by rewrite (delete_absent _ _ Hg).
Qed.

(** X10: the analytics cache is never filled: it is empty in every
    reachable state. *)
Theorem cache_always_empty (st : state) :
  reachable st → analytics_cache st = [].
Proof.
  induction 1 as [|now user st Hst IH|user_id st Hst IH]; [done| |].
  - rewrite process_user_cases. by destruct (accepted_id user).
  - unfold delete_processed_user. destruct (negb _); [done|].
    by destruct (PyDict.pop user_id (processed_users_db st)) as [[r db]|].
Qed.

End store_laws.

(** ** More on the analytics aggregator *)

Section aggregator_laws.
Context `{Builtins}.

Lemma analytics_loop_log p records :
  ∀ ages dist log,
    (analytics_loop p records (ages, dist, log)).2
    = log ++ ((λ r, GetUser (ProcessedUserData.user_id r)) <$> records).
Proof.
  induction records as [|r records IH]; intros ages dist log.
  - simpl. by rewrite app_nil_r.
  - rewrite analytics_loop_cons, analytics_step_eq, IH. by rewrite <- app_assoc.
Qed.

(** Neither the histogram nor the calls depend on what the peer answers. *)
Lemma analytics_loop_peer_independent p p' records :
  ∀ ages ages' dist log,
    (analytics_loop p records (ages, dist, log)).1.2
    = (analytics_loop p' records (ages', dist, log)).1.2.
Proof.
  induction records as [|r records IH]; intros ages ages' dist log; [done|].
  rewrite !analytics_loop_cons, !analytics_step_eq. apply IH.
Qed.

(** X11: the aggregator asks the peer once per stored record, for that
    record's [user_id], in the order of the listing, whatever the peer
    answers. *)
Theorem get_analytics_calls (p : peer) (st : state) :
  (get_analytics p st).2
  = (λ r, GetUser (ProcessedUserData.user_id r)) <$> get_all_processed_users st.
Proof.
  unfold get_all_processed_users.
  destruct (processed_users_db st) as [|kv db] eqn:Edb.
  - unfold get_analytics. by rewrite Edb.
  - rewrite get_analytics_nonempty by (rewrite Edb; done). rewrite Edb.
    pose proof (analytics_loop_log p (PyDict.values (kv :: db)) [] (tally 0 0 0) []) as Hlog.
    destruct (analytics_loop _ _ _) as [[ages dist] log]. by simpl in *.
Qed.





(** X13: the peer bears on [average_age] only: summaries returned for the
    same state under two peers have the same user count, distribution and
    statistics, and the same calls were made for them. *)
Theorem only_average_depends_on_peer (p p' : peer) (st : state) (s s' : AnalyticsSummary.t) :
  (get_analytics p st).1 = Return (Summary s) →
  (get_analytics p' st).1 = Return (Summary s') →
  AnalyticsSummary.total_users s = AnalyticsSummary.total_users s' ∧
  AnalyticsSummary.age_distribution s = AnalyticsSummary.age_distribution s' ∧
  AnalyticsSummary.processing_stats s = AnalyticsSummary.processing_stats s' ∧
  (get_analytics p st).2 = (get_analytics p' st).2.
Proof.
  destruct (processed_users_db st) as [|kv db] eqn:Edb.
  { unfold get_analytics. rewrite Edb. simpl. by intros [= <-] [= <-]. }
  rewrite !get_analytics_nonempty by (rewrite Edb; done).
  pose proof (analytics_loop_peer_independent p p'
                (PyDict.values (processed_users_db st)) [] [] (tally 0 0 0) []) as Hd.
  pose proof (analytics_loop_log p (PyDict.values (processed_users_db st))
                [] (tally 0 0 0) []) as Hl.
  pose proof (analytics_loop_log p' (PyDict.values (processed_users_db st))
                [] (tally 0 0 0) []) as Hl'.
  destruct (analytics_loop p _ _) as [[ages dist] log].
  destruct (analytics_loop p' _ _) as [[ages' dist'] log']. cbn [fst snd] in *.
  destruct (mean ages) as [avg|]; [|done]. destruct (mean ages') as [avg'|]; [|done].
  cbn [mbind outcome_bind]. intros [= <-] [= <-]. simpl. by subst.
Qed.

Lemma analytics_loop_all_rejected p records :
  always_other_status p →
  ∀ ages dist log, (analytics_loop p records (ages, dist, log)).1.1 = ages.
Proof.
  intros Hp. induction records as [|r records IH]; intros ages dist log; [done|].
  rewrite analytics_loop_cons, analytics_step_eq, IH.
  destruct (Hp log (GetUser (ProcessedUserData.user_id r))) as (sc & body & -> & Hsc).
  by rewrite fetch_age_non_200.
Qed.

(** X14: when the peer answers every lookup with a status other than 200,
    no age is collected at all: the summary counts every stored record but
    reports the average [round(0.0, 2)]. *)
Theorem get_analytics_all_rejected (p : peer) (st : state) :
  processed_users_db st ≠ [] → always_other_status p →
  ∃ s, (get_analytics p st).1 = Return (Summary s) ∧
       AnalyticsSummary.average_age s = round2 0%Q ∧
       AnalyticsSummary.total_users s = Z.of_nat (length (get_all_processed_users st)) ∧
       0 < AnalyticsSummary.total_users s.
Proof.
  intros Hne Hp. rewrite (get_analytics_nonempty p st Hne).
  pose proof (analytics_loop_all_rejected p
                (PyDict.values (processed_users_db st)) Hp [] (tally 0 0 0) []) as Hages.
  destruct (analytics_loop _ _ _) as [[ages dist] log]. cbn [fst] in *. subst ages.
  eexists. split; [reflexivity|]. simpl.
  unfold get_all_processed_users, PyDict.values, PyDict.len. rewrite length_fmap.
  split_and!; [done|done|]. destruct (processed_users_db st); [done | simpl; lia].
Qed.

End aggregator_laws.

(** ** More on batch processing *)

Section batch_laws.
Context `{Builtins}.

Lemma batch_loop_count p items :
  ∀ c log n log',
    batch_loop p items c log = (Return n, log') →
    c ≤ n ≤ c + Z.of_nat (length items).
Proof.
  induction items as [|user rest IH]; intros c log n log'; simpl.
  - intros [= <- _]. lia.
  - unfold call. destruct (p log (PostProcessUser user)) as [e|sc body]; [done|].
    intros Hl. apply IH in Hl. destruct (decide (sc = 200)); lia.
Qed.

Lemma batch_loop_prefix p done rest :
  ∀ c log,
    Forall (λ r, raised r = false) (submissions p done log) →
    batch_loop p (done ++ rest) c log
    = batch_loop p rest (c + count_200 (submissions p done log))
        (log ++ (PostProcessUser <$> done)).
Proof.
  induction done as [|user done IH]; intros c log Hrs; simpl.
  - by rewrite Z.add_0_r, app_nil_r.
  - simpl in Hrs. apply Forall_cons in Hrs as [Hr Hrs]. unfold call.
    destruct (p log (PostProcessUser user)) as [e|sc body]; [done|].
    rewrite (IH _ _ Hrs). rewrite <- app_assoc. simpl.
    destruct (decide (sc = 200)) as [->|Hsc].
    + rewrite bool_decide_eq_true_2 by done. f_equal; lia.
    + rewrite bool_decide_eq_false_2 by done. f_equal; lia.
Qed.

Lemma batch_body_return p x log :
  batch_body p = (Return x, log) →
  ∃ total processed,
    x = BatchReport "Batch processing completed" total processed ∧
    0 ≤ processed ≤ total.
Proof.
  unfold batch_body, call. destruct (p [] GetUsers) as [e|sc body]; [done|].
  destruct (decide (sc = 200)) as [->|]; [|done]. destruct body as [users|]; [|done].
  destruct (py_iter users) as [items|e]; [|done].
  destruct (batch_loop p items 0 _) as [[n|e] log'] eqn:El; [|done].
  cbn [mbind outcome_bind]. intros [= <- _]. apply batch_loop_count in El.
  eexists _, _. split; [done | lia].
Qed.

(** X15: a batch ends in one of two ways only: a report whose
    [processed_count] lies between 0 and [total_users], or a 500 whose
    detail starts with "Batch processing failed: "; a failed fetch is
    reported in this wrapped form too. *)
Theorem batch_process_users_outcomes (p : peer) :
  (∃ total processed,
     (batch_process_users p).1
     = Return (BatchReport "Batch processing completed" total processed) ∧
     0 ≤ processed ≤ total) ∨
  (∃ e, (batch_process_users p).1
        = Raise (HTTPException 500 ("Batch processing failed: " +:+ str_exn e))).
Proof.
  unfold batch_process_users. destruct (batch_body p) as [[x|e] log] eqn:Eb.
  - left. destruct (batch_body_return _ _ _ Eb) as (t & c & -> & Hc). eauto.
  - right. eauto.
Qed.

(** X16: the first re-submission that raises ends the batch: the users
    before it have been re-submitted, the users after it never are, and the
    500 carries the text of that exception. *)
Theorem batch_first_raise (p : peer) (users : json) (done rest : list json)
    (u : json) (e : exn) :
  p [] GetUsers = Responds 200 (Some users) →
  py_iter users = Return (done ++ u :: rest) →
  Forall (λ r, raised r = false) (submissions p done [GetUsers]) →
  p (GetUsers :: (PostProcessUser <$> done)) (PostProcessUser u) = Fails e →
  batch_process_users p
  = (Raise (HTTPException 500 ("Batch processing failed: " +:+ str_exn e)),
     GetUsers :: (PostProcessUser <$> done) ++ [PostProcessUser u]).
Proof.
  intros Hfetch Hiter Hdone Hu.
  unfold batch_process_users, batch_body, call. rewrite Hfetch, Hiter. simpl.
  change ([] ++ [GetUsers]) with [GetUsers].
  rewrite (batch_loop_prefix p done (u :: rest) 0 [GetUsers] Hdone).
  simpl. unfold call. by rewrite Hu.
Qed.

(** X17: what the batch makes of a fetched body that is not a list: null,
    a boolean or a number cannot be iterated and end in a 500 after the one
    call; of an object the keys are re-submitted, as strings, and counted
    as the users. *)
Theorem batch_on_non_list_body (p : peer) (users : json) :
  p [] GetUsers = Responds 200 (Some users) →
  (users = JNull ∨ (∃ b, users = JBool b) ∨ (∃ n, users = JInt n) ∨ (∃ q, users = JFloat q) →
   batch_process_users p
   = (Raise (HTTPException 500 ("Batch processing failed: " +:+ str_exn TypeError)),
      [GetUsers])) ∧
  (∀ members,
     users = JObj members →
     let items := JStr <$> PyDict.keys members in
     Forall (λ r, raised r = false) (submissions p items [GetUsers]) →
     batch_process_users p
     = (Return (BatchReport "Batch processing completed"
                  (Z.of_nat (PyDict.len members))
                  (count_200 (submissions p items [GetUsers]))),
        GetUsers :: (PostProcessUser <$> items))).
Proof.
  intros Hfetch. split.
  - intros Hcase. unfold batch_process_users, batch_body, call. rewrite Hfetch. simpl.
    by destruct Hcase as [-> | [[b ->] | [[n ->] | [q ->]]]].
  - intros members -> items Hok.
    unfold batch_process_users, batch_body, call. rewrite Hfetch. simpl.
    change ([] ++ [GetUsers]) with [GetUsers]. fold items.
    rewrite (batch_loop_completes p items 0 [GetUsers] Hok). simpl.
    unfold items. by rewrite length_fmap, PyDictLaws.len_keys.
Qed.

End batch_laws.

(** ** The cross-service test *)

Section diagnostics_laws.
Context `{Builtins}.

(** X18: the cross-service test makes both calls, the second one whatever
    came of the first; its report has the two entries in this order, each
    either a success or an error entry, and counts the stored records. *)
Theorem cross_service_test_shape (p : probed_peer) (st : state) :
  let report := (cross_service_test p st).1 in
  (cross_service_test p st).2 = [ProbeHealth; ProbeUsers] ∧
  PyDict.keys (CrossServiceReport.cross_service_test report)
  = ["service1_health"; "service1_users"] ∧
  CrossServiceReport.service2_status report = "healthy" ∧
  CrossServiceReport.processed_users_count report
  = Z.of_nat (length (get_all_processed_users st)) ∧
  (∀ key entry,
     PyDict.get key (CrossServiceReport.cross_service_test report) = Some entry →
     subscript entry "status" = Return (JStr "success") ∨
     ∃ e, entry = error_entry e).
Proof.
  simpl. split_and!; [done|done|done| |].
  - unfold get_all_processed_users, PyDict.values, PyDict.len. by rewrite length_fmap.
  - intros key entry. unfold cross_service_test. simpl.
    destruct (decide (key = "service1_health")) as [->|Hk1].
    + intros [= <-]. unfold health_entry. destruct (decoded _); eauto.
    + destruct (decide (key = "service1_users")) as [->|Hk2]; [|done].
      intros [= <-]. unfold users_entry.
      destruct (_ ← decoded _; py_len _); eauto.
Qed.

(** X19: the health probe is reported as a success exactly when the peer
    answered with a JSON body, under any status code; the body is passed
    on as it came. *)
Theorem cross_service_health_ignores_status (p : probed_peer) (st : state) :
  let results := CrossServiceReport.cross_service_test (cross_service_test p st).1 in
  (∀ status_code v,
     p [] ProbeHealth = Responds status_code (Some v) →
     PyDict.get "service1_health" results
     = Some (JObj [("status", JStr "success"); ("response", v)])) ∧
  ((∃ entry, PyDict.get "service1_health" results = Some entry ∧
             subscript entry "status" = Return (JStr "success"))
   ↔ ∃ status_code v, p [] ProbeHealth = Responds status_code (Some v)).
Proof.
  simpl. split.
  - intros sc v Hr. unfold health_entry. by rewrite Hr.
  - unfold health_entry. destruct (p [] ProbeHealth) as [e|sc [v|]]; simpl.
    + split; [by intros (entry & [= <-] & Hs) | by intros (sc & v & Hr)].
    + split; [eauto | intros _; eauto].
    + split; [by intros (entry & [= <-] & Hs) | by intros (sc' & v & Hr)].
Qed.

(** X20: the users probe counts what the peer sent: the items of an array,
    the members of an object, the characters of a string, under any status
    code; a body without a length or that is not JSON gives an error
    entry. *)
Theorem cross_service_users_count (p : probed_peer) (st : state) :
  let results := CrossServiceReport.cross_service_test (cross_service_test p st).1 in
  (∀ status_code v n,
     p [ProbeHealth] ProbeUsers = Responds status_code (Some v) →
     py_len v = Return n →
     0 ≤ n ∧
     PyDict.get "service1_users" results
     = Some (JObj [("status", JStr "success"); ("count", JInt n)])) ∧
  (∀ status_code items,
     p [ProbeHealth] ProbeUsers = Responds status_code (Some (JArr items)) →
     PyDict.get "service1_users" results
     = Some (JObj [("status", JStr "success");
                   ("count", JInt (Z.of_nat (length items)))])) ∧
  (∀ status_code body,
     p [ProbeHealth] ProbeUsers = Responds status_code body →
     body = None ∨ (∃ v e, body = Some v ∧ py_len v = Raise e) →
     ∃ e, PyDict.get "service1_users" results = Some (error_entry e)).
Proof.
  simpl. split_and!.
  - intros sc v n Hr Hn. unfold users_entry. rewrite Hr. simpl. rewrite Hn. split; [|done].
    destruct v; simpl in Hn; try done; injection Hn as <-; lia.
  - intros sc items Hr. unfold users_entry. by rewrite Hr.
  - intros sc body Hr Hcase. unfold users_entry. rewrite Hr.
    destruct Hcase as [-> | (v & e & -> & Hl)]; simpl; [eauto|]. rewrite Hl. eauto.
Qed.

End diagnostics_laws.

(** ** More on the email domain *)

Lemma last_item_no_sep (sep : ascii) (s : string) :
  sep ∉ list_ascii_of_string (last_item (str_split sep s)).
Proof.
  induction s as [|c s IH]; simpl.
  - apply not_elem_of_nil.
  - destruct (str_split sep s) as [|w ws] eqn:E.
    { by apply str_split_nonempty in E. }
    destruct (decide (c = sep)) as [->|Hne]; [done|].
    destruct ws as [|y ws]; [|done].
    unfold last_item in *. simpl in *. rewrite not_elem_of_cons. split; [congruence | done].
Qed.

(** A string that holds the separator ends with the separator followed by
    the last piece of its split. *)
Lemma str_contains_decompose (sep : ascii) (s : string) :
  str_contains sep s = true →
  ∃ pre, s = pre +:+ String sep (last_item (str_split sep s)).
Proof.
  induction s as [|c s IH]; [done|].
  cbn [str_contains]. destruct (decide (c = sep)) as [->|Hne].
  - intros _. destruct (str_contains sep s) eqn:Hs.
    + destruct (IH eq_refl) as [pre Hpre]. exists (String sep pre).
      cbn [str_split]. rewrite decide_True by done.
      destruct (str_split sep s) as [|w ws] eqn:E.
      { by apply str_split_nonempty in E. }
      change (String sep s = String sep (pre +:+ String sep (last_item (w :: ws)))).
      by f_equal.
    + exists EmptyString. cbn [str_split]. rewrite decide_True by done.
      by rewrite (str_split_absent _ _ Hs).
  - intros Hs. destruct (IH Hs) as [pre Hpre].
    remember (last_item (str_split sep s)) as l eqn:El.
    exists (String c pre).
    assert (last_item (str_split sep (String c pre +:+ String sep l)) = l) as Hl.
    { apply last_item_split. rewrite El. apply last_item_no_sep. }
    change (String c pre +:+ String sep l) with (String c (pre +:+ String sep l)) in *.
    rewrite <- Hpre in Hl. rewrite Hl.
    change (String c s = String c (pre +:+ String sep l)). by f_equal.
Qed.

Section deriver_laws.
Context `{Builtins}.

(** X21: the derived email domain never holds an "@"; and when the email
    holds one, the email ends with "@" followed by the domain. *)
Theorem email_domain_shape (user : User.t) :
  let domain := ProcessedData.email_domain (derive_processed_data user) in
  ("@"%char ∉ list_ascii_of_string domain) ∧
  (("@"%char ∈ list_ascii_of_string (User.email user)) →
   ∃ pre, User.email user = pre +:+ "@" +:+ domain).
Proof.
  simpl. destruct (str_contains "@" (User.email user)) eqn:Hc.
  - split; [apply last_item_no_sep|]. intros _.
    by apply str_contains_decompose.
  - split.
    + apply str_contains_false. reflexivity.
    + intros Hin. apply str_contains_spec in Hin. congruence.
Qed.

End deriver_laws.

(** ** The statements at work on the sample data *)

(** C4 at Ann (22) and Bob (41). *)
Lemma derive_age_category_is_adult_witness :
  ProcessedData.age_category (derive_processed_data (H := ascii_builtins) ann) = "young" ∧
  ProcessedData.age_category (derive_processed_data (H := ascii_builtins) bob) = "middle" ∧
  ProcessedData.is_adult (derive_processed_data (H := ascii_builtins) bob) = true.
Proof.
  destruct (derive_age_category_is_adult (H := ascii_builtins) ann) as (Hy & _).
  destruct (derive_age_category_is_adult (H := ascii_builtins) bob) as (_ & Hm & _ & Ha & _).
  split; [apply Hy; simpl; lia|]. split; [apply Hm; simpl; lia | apply Ha; simpl; lia].
Defined.

(** C9 at Ann's email, split as "ann" / "example.com". *)
Lemma derive_email_domain_witness :
  ProcessedData.email_domain (derive_processed_data (H := ascii_builtins) ann)
  = "example.com".
Proof.
  apply (proj1 (derive_email_domain (H := ascii_builtins) ann) "ann" "example.com").
  - reflexivity.
  - apply str_contains_false. reflexivity.
Defined.

(** C5 at Ann, posted to the initial state. *)
Lemma post_get_delete_roundtrip_witness :
  let posted := process_user (H := ascii_builtins) "2024-05-01T10:00:00" ann initial_state in
  let deleted := delete_processed_user 1 posted.2 in
  status_of posted.1 = 200 ∧
  get_processed_user 1 posted.2
  = Return (Stored {| ProcessedUserData.user_id := 1;
                      ProcessedUserData.processed_data :=
                        derive_processed_data (H := ascii_builtins) ann;
                      ProcessedUserData.processing_timestamp := "2024-05-01T10:00:00";
                      ProcessedUserData.analytics := fixed_analytics |}) ∧
  status_of deleted.1 = 200 ∧
  get_processed_user 1 deleted.2
  = Raise (HTTPException 404 "Processed user data not found") ∧
  status_of (get_processed_user 1 deleted.2) = 404.
Proof.
  apply (post_get_delete_roundtrip (H := ascii_builtins)
           "2024-05-01T10:00:00" ann 1 initial_state).
  - reflexivity.
  - lia.
  - apply NoDup_nil_2.
Defined.

(** C6 as stated fails: deleting Ann answers with a message; her record is
    not what the caller gets. *)
Lemma delete_answers_message_not_record :
  ∃ r, PyDict.get 1 (processed_users_db (store_ann (H := ascii_builtins))) = Some r ∧
       (delete_processed_user 1 (store_ann (H := ascii_builtins))).1
       = Return (Message "Processed data for user 1 deleted successfully") ∧
       (delete_processed_user 1 (store_ann (H := ascii_builtins))).1 ≠ Return (Stored r).
Proof. eexists. split; [reflexivity|]. split; [reflexivity | discriminate]. Qed.

(** C6, amended, at the store holding Ann and Bob: identifier 7 is absent,
    identifier 1 is removed. *)
Lemma delete_processed_user_spec_witness :
  let st := store_ann_bob (H := ascii_builtins) in
  delete_processed_user 7 st
  = (Raise (HTTPException 404 "Processed user data not found"), st) ∧
  ∃ db, delete_processed_user 1 st
        = (Return (Message "Processed data for user 1 deleted successfully"),
           {| processed_users_db := db; analytics_cache := [] |}) ∧
        PyDict.get 1 db = None ∧
        PyDict.get 2 db = PyDict.get 2 (processed_users_db st).
Proof.
  intros st.
  assert (PyDict.wf (processed_users_db st)) as Hwf.
  { apply NoDup_cons_2; [|apply NoDup_singleton].
    intros Hin. apply list_elem_of_singleton in Hin. discriminate. }
  split.
  - apply (proj1 (delete_processed_user_spec 7 st Hwf)). reflexivity.
  - destruct (proj2 (delete_processed_user_spec 1 st Hwf) _ eq_refl)
      as (db & _ & Hd & Hgone & Hothers & _).
    exists db. split; [exact Hd|]. split; [exact Hgone|]. apply Hothers. lia.
Defined.

(** C7 as stated fails: when Ann's re-submission times out, the batch stops
    there with a 500; Bob is never re-submitted and no count is reported. *)
Lemma batch_stops_at_raised_submission :
  peer_times_out_on_ann [] GetUsers = Responds 200 (Some (JArr [ann_json; bob_json])) ∧
  batch_process_users (H := ascii_builtins) peer_times_out_on_ann
  = (Raise (HTTPException 500 "Batch processing failed: TimeoutException"),
     [GetUsers; PostProcessUser ann_json]) ∧
  status_of (batch_process_users (H := ascii_builtins) peer_times_out_on_ann).1 = 500.
Proof. split; [reflexivity|]. split; reflexivity. Qed.

(** C7, amended, at a peer that rejects Ann's re-submission with 422 and
    accepts Bob's, and at a peer that is down. *)
Lemma batch_process_users_spec_witness :
  batch_process_users (H := ascii_builtins) peer_rejects_ann
  = (Return (BatchReport "Batch processing completed" 2 1),
     [GetUsers; PostProcessUser ann_json; PostProcessUser bob_json]) ∧
  status_of (batch_process_users (H := ascii_builtins) peer_down).1 = 500 ∧
  status_of (batch_process_users (H := ascii_builtins) peer_times_out_on_ann).1 = 500.
Proof.
  split; [|split].
  - apply (proj2 (proj2 (batch_process_users_spec (H := ascii_builtins) peer_rejects_ann))
             (JArr [ann_json; bob_json]) [ann_json; bob_json] eq_refl eq_refl).
    repeat constructor.
  - apply (proj1 (batch_process_users_spec (H := ascii_builtins) peer_down) ConnectError).
    reflexivity.
  - apply (proj2 (proj2 (batch_process_users_spec (H := ascii_builtins) peer_times_out_on_ann))
             (JArr [ann_json; bob_json]) [ann_json; bob_json] eq_refl eq_refl).
    apply Exists_cons_hd. reflexivity.
Defined.

(** C10 at the store holding Ann and Bob, with the peer down. *)
Lemma get_analytics_distribution_witness :
  ∃ s, (get_analytics (H := ascii_builtins) peer_down
          (store_ann_bob (H := ascii_builtins))).1
       = Return (Summary s) ∧
       AnalyticsSummary.age_distribution s = tally 1 1 0 ∧
       ∃ y m o,
         AnalyticsSummary.age_distribution s = tally y m o ∧
         0 ≤ y ∧ 0 ≤ m ∧ 0 ≤ o ∧ y + m + o = AnalyticsSummary.total_users s.
Proof.
  eexists. split; [reflexivity|]. split; [reflexivity|].
  edestruct (get_analytics_distribution (H := ascii_builtins) peer_down
               (store_ann_bob (H := ascii_builtins)))
    as (y & m & o & _ & Hy & Hm & Ho & _ & Hs).
  - apply reach_process, reach_process, reach_init.
  - discriminate.
  - destruct (Hs _ eq_refl) as (Hd & _ & Hsum).
    exists y, m, o. split; [exact Hd|]. split; [exact Hy|]. split; [exact Hm|].
    split; [exact Ho | exact Hsum].
Defined.

(** ** The further properties at work on the sample data *)

(** X1 at Carl, posted with the identifier zero. *)
Lemma process_user_validation_witness :
  process_user (H := ascii_builtins) "2024-05-01T10:00:00" carl initial_state
  = (Raise (HTTPException 400 "User ID is required"), initial_state).
Proof.
  apply (proj2 (process_user_validation (H := ascii_builtins)
                  "2024-05-01T10:00:00" carl initial_state)).
  simpl. lia.
Defined.

(** X2: posting Ann leaves Bob's record as it is. *)
Lemma process_user_other_ids_witness :
  get_processed_user 2
    (process_user (H := ascii_builtins) "2024-05-01T10:00:09" ann_moved
       (store_ann_bob (H := ascii_builtins))).2
  = get_processed_user 2 (store_ann_bob (H := ascii_builtins)).
Proof.
  apply (process_user_other_ids (H := ascii_builtins)). simpl. discriminate.
Defined.

(** X3: Ann posted twice. *)
Lemma process_user_last_write_wins_witness :
  (process_user (H := ascii_builtins) "2024-05-01T10:00:09" ann_moved
     (process_user (H := ascii_builtins) "2024-05-01T10:00:00" ann initial_state).2).2
  = (process_user (H := ascii_builtins) "2024-05-01T10:00:09" ann_moved initial_state).2.
Proof.
  apply (process_user_last_write_wins (H := ascii_builtins)). reflexivity.
Defined.

(** X4: Ann and Bob posted in either order. *)
Lemma process_user_commute_witness :
  get_processed_user 1
    (process_user (H := ascii_builtins) "2024-05-01T10:00:05" bob
       (process_user (H := ascii_builtins) "2024-05-01T10:00:00" ann initial_state).2).2
  = get_processed_user 1
      (process_user (H := ascii_builtins) "2024-05-01T10:00:00" ann
         (process_user (H := ascii_builtins) "2024-05-01T10:00:05" bob initial_state).2).2.
Proof.
  apply (process_user_commute (H := ascii_builtins)). simpl. discriminate.
Defined.

(** X5: Bob posted after Ann goes last; Ann posted again keeps her place. *)
Lemma listing_after_post_witness :
  get_all_processed_users
    (process_user (H := ascii_builtins) "2024-05-01T10:00:05" bob
       (store_ann (H := ascii_builtins))).2
  = get_all_processed_users (store_ann (H := ascii_builtins))
    ++ [record_of (H := ascii_builtins) "2024-05-01T10:00:05" 2 bob] ∧
  PyDict.keys (processed_users_db
    (process_user (H := ascii_builtins) "2024-05-01T10:00:09" ann_moved
       (store_ann_bob (H := ascii_builtins))).2)
  = PyDict.keys (processed_users_db (store_ann_bob (H := ascii_builtins))).
Proof.
  split.
  - apply (proj1 (listing_after_post (H := ascii_builtins)
                    "2024-05-01T10:00:05" bob 2 store_ann eq_refl ltac:(lia))).
    reflexivity.
  - apply (proj2 (listing_after_post (H := ascii_builtins)
                    "2024-05-01T10:00:09" ann_moved 1 store_ann_bob eq_refl ltac:(lia))).
    simpl. eauto.
Defined.

(** X6: Bob's record is in the listing of the store holding Ann and Bob. *)
Lemma listing_matches_lookup_witness :
  record_of (H := ascii_builtins) "2024-05-01T10:00:05" 2 bob
  ∈ get_all_processed_users (store_ann_bob (H := ascii_builtins)).
Proof.
  apply (listing_matches_lookup (H := ascii_builtins)).
  - apply reach_process, reach_process, reach_init.
  - reflexivity.
Defined.

(** X7: Bob's record in the store holding Ann and Bob. *)
Lemma reachable_record_derived_witness :
  ProcessedData.is_adult
    (ProcessedUserData.processed_data
       (record_of (H := ascii_builtins) "2024-05-01T10:00:05" 2 bob)) = true.
Proof.
  destruct (reachable_record_derived (H := ascii_builtins)
              (store_ann_bob (H := ascii_builtins)) 2
              (record_of (H := ascii_builtins) "2024-05-01T10:00:05" 2 bob))
    as (_ & _ & _ & Hadult & _).
  - apply reach_process, reach_process, reach_init.
  - reflexivity.
  - apply Hadult. simpl. discriminate.
Defined.

(** X8: Ann posted to the empty store and deleted again. *)
Lemma post_then_delete_restores_witness :
  processed_users_db
    (delete_processed_user 1
       (process_user (H := ascii_builtins) "2024-05-01T10:00:00" ann initial_state).2).2
  = [].
Proof.
  apply (proj2 (post_then_delete_restores (H := ascii_builtins)
                  "2024-05-01T10:00:00" ann 1 initial_state eq_refl ltac:(lia) eq_refl)).
Defined.

(** X9: Ann deleted twice from the store holding Ann and Bob. *)
Lemma delete_twice_witness :
  let st' := (delete_processed_user 1 (store_ann_bob (H := ascii_builtins))).2 in
  delete_processed_user 1 st'
  = (Raise (HTTPException 404 "Processed user data not found"), st').
Proof.
  apply delete_twice.
  apply NoDup_cons_2; [|apply NoDup_singleton].
  intros Hin. apply list_elem_of_singleton in Hin. discriminate.
Defined.

(** X10 at the store holding Ann and Bob. *)
Lemma cache_always_empty_witness :
  analytics_cache (store_ann_bob (H := ascii_builtins)) = [].
Proof.
  apply (cache_always_empty (H := ascii_builtins)).
  apply reach_process, reach_process, reach_init.
Defined.


(** X13 with the peer down and with the peer that knows Ann. *)
Lemma only_average_depends_on_peer_witness :
  ∃ s s',
    (get_analytics (H := ascii_builtins) peer_down
       (store_ann_bob (H := ascii_builtins))).1 = Return (Summary s) ∧
    (get_analytics (H := ascii_builtins) peer_knows_ann
       (store_ann_bob (H := ascii_builtins))).1 = Return (Summary s') ∧
    AnalyticsSummary.age_distribution s = AnalyticsSummary.age_distribution s' ∧
    AnalyticsSummary.average_age s ≠ AnalyticsSummary.average_age s'.
Proof.
  eexists. eexists. split; [reflexivity|]. split; [reflexivity|]. split.
  - apply (only_average_depends_on_peer (H := ascii_builtins) peer_down peer_knows_ann
             (store_ann_bob (H := ascii_builtins)) _ _ eq_refl eq_refl).
  - discriminate.
Defined.

(** X14 with the peer that answers every lookup with 404. *)
Lemma get_analytics_all_rejected_witness :
  ∃ s, (get_analytics (H := ascii_builtins) peer_not_found
          (store_ann_bob (H := ascii_builtins))).1 = Return (Summary s) ∧
       AnalyticsSummary.average_age s = 0%Q ∧
       AnalyticsSummary.total_users s = 2.
Proof.
  destruct (get_analytics_all_rejected (H := ascii_builtins) peer_not_found
              (store_ann_bob (H := ascii_builtins)))
    as (s & Hs & Havg & Htotal & _).
  - discriminate.
  - intros log req. exists 404, (Some (JObj [("detail", JStr "User not found")])).
    split; [reflexivity | lia].
  - exists s. split; [exact Hs|]. split; [exact Havg | exact Htotal].
Defined.

(** X16 at the peer that times out on Ann, the first user of two. *)
Lemma batch_first_raise_witness :
  batch_process_users (H := ascii_builtins) peer_times_out_on_ann
  = (Raise (HTTPException 500 "Batch processing failed: TimeoutException"),
     [GetUsers; PostProcessUser ann_json]).
Proof.
  apply (batch_first_raise (H := ascii_builtins) peer_times_out_on_ann
           (JArr [ann_json; bob_json]) [] [bob_json] ann_json TimeoutException).
  - reflexivity.
  - reflexivity.
  - constructor.
  - reflexivity.
Defined.

(** X17 at the peer that wraps its user list in an object. *)
Lemma batch_on_non_list_body_witness :
  batch_process_users (H := ascii_builtins) peer_sends_object
  = (Return (BatchReport "Batch processing completed" 1 1),
     [GetUsers; PostProcessUser (JStr "users")]).
Proof.
  apply (proj2 (batch_on_non_list_body (H := ascii_builtins) peer_sends_object
                  (JObj [("users", JArr [ann_json; bob_json])]) eq_refl)
           [("users", JArr [ann_json; bob_json])] eq_refl).
  repeat constructor.
Defined.

(** X19 at the peer that answers 503 with an error document. *)
Lemma cross_service_health_ignores_status_witness :
  PyDict.get "service1_health"
    (CrossServiceReport.cross_service_test
       (cross_service_test (H := ascii_builtins) probed_peer_degraded initial_state).1)
  = Some (JObj [("status", JStr "success");
                ("response", JObj [("detail", JStr "Service Unavailable")])]).
Proof.
  apply (proj1 (cross_service_health_ignores_status (H := ascii_builtins)
                  probed_peer_degraded initial_state) 503).
  reflexivity.
Defined.

(** X20 at the healthy peer that lists Ann and Bob. *)
Lemma cross_service_users_count_witness :
  PyDict.get "service1_users"
    (CrossServiceReport.cross_service_test
       (cross_service_test (H := ascii_builtins) probed_peer_healthy initial_state).1)
  = Some (JObj [("status", JStr "success"); ("count", JInt 2)]).
Proof.
  apply (proj1 (proj2 (cross_service_users_count (H := ascii_builtins)
                         probed_peer_healthy initial_state))
           200 [ann_json; bob_json]).
  reflexivity.
Defined.

(** X21 at Ann's email. *)
Lemma email_domain_shape_witness :
  ∃ pre, User.email ann = pre +:+ "@" +:+ "example.com".
Proof.
  apply (proj2 (email_domain_shape (H := ascii_builtins) ann)).
  apply str_contains_spec. reflexivity.
Defined.
